(** * voice-agent: the WebSocket proxy session and the browser audio pipeline

    A shallow embedding of [src/websocketProxy.js] (the relay between the
    browser socket [frontendWs] and the agent socket [elevenLabsWs]) and of
    the audio functions of [src/public/client.js] ([resampleAudio], the
    Int16 PCM conversion of [onaudioprocess], and the playback queue drained
    by [processAudioQueue]), followed by the capture callback as a whole,
    the sample decoder of [playRawPcmAudioQueued] and the teardown of the
    capture nodes ([stopLocalRecording] and the handlers that call it).
    [resampleAudio] and the capture callback are embedded a second time
    over IEEE 754 binary64 numbers.

    Conventions.
    - Every event handler of the proxy is a function from the session state
      to the new state and the list of calls it makes on the two sockets,
      in program order.
    - [JSON.parse] is a built-in of the runtime: the handlers take it as a
      parameter [JSON_parse].  A call [ws.send(JSON.stringify(x))] is
      recorded with the value [x] that is serialised.
    - JavaScript numbers are modelled twice.  [JsNumber] has exact
      rational arithmetic on the finite values, together with [NaN] and
      the two infinities; the properties of the PCM conversion and of
      the interpolation proved there are properties of the exact values.
      [Ieee754] is binary64 arithmetic (every operation rounds its exact
      result to the nearest number, ties to even, with signed zeros,
      infinities and [NaN]), with the binary32 rounding of a
      [Float32Array] store and the allocation limit of typed arrays; the
      statements about what [resampleAudio] returns and what the capture
      callback sends are made there. *)

From Stdlib Require Import List String Ascii Bool Arith ZArith QArith Qround Qabs Qpower Lia Lqa.
From Stdlib.Floats Require Import SpecFloat.
From Stdlib.Strings Require Import Byte.
Import ListNotations.

Local Open Scope string_scope.
Local Open Scope list_scope.
Set Warnings "-register-all".

(* ================================================================== *)
(** * Part I: definitions *)
(* ================================================================== *)

(** ** JSON values and the [ws] socket interface *)

Module Json.

(** The values [JSON.parse] can return. *)
Inductive json : Type :=
| JNull
| JBool (b : bool)
| JNum (n : Q)
| JStr (s : string)
| JArr (items : list json)
| JObj (fields : list (string * json)).

Fixpoint assoc (k : string) (fields : list (string * json)) : option json :=
  match fields with
  | [] => None
  | (k', v) :: rest => if String.eqb k k' then Some v else assoc k rest
  end.

(** The result of evaluating a JavaScript expression that may throw. *)
Inductive completion (A : Type) : Type :=
| Normal (a : A)
| Throw.
Arguments Normal {A} a.
Arguments Throw {A}.

(** [value.type]: reading a property of [null] throws a [TypeError];
    primitives and arrays have no such property, so the read yields
    [undefined] (here [None]); an object yields the field when present. *)
Definition prop_type (j : json) : completion (option json) :=
  match j with
  | JNull => Throw
  | JObj fields => Normal (assoc "type" fields)
  | _ => Normal None
  end.

(** [String(v)] on a value [JSON.parse] returned: does the conversion
    throw?  An object converts through its [toString] method.  No parsed
    value is callable, so an own property [toString] hides
    [Object.prototype.toString], and [valueOf] (an own property that is
    not callable either, or the inherited method, which returns the object
    itself) yields no primitive: the conversion throws a [TypeError].  An
    array joins the conversions of its elements.  Every other value
    converts. *)
Fixpoint ToString_throws (j : json) : bool :=
  match j with
  | JObj fields =>
      match assoc "toString" fields with
      | Some _ => true
      | None => false
      end
  | JArr items => existsb ToString_throws items
  | _ => false
  end.

(** A template literal [`...${v}...`] converts [v] to a string;
    [undefined] (here [None]) converts to ["undefined"]. *)
Definition template_literal (v : option json) : completion unit :=
  match v with
  | Some j => if ToString_throws j then Throw else Normal tt
  | None => Normal tt
  end.

(** [v === 'literal']. *)
Definition strict_eq (v : option json) (lit : string) : bool :=
  match v with
  | Some (JStr s) => String.eqb s lit
  | _ => false
  end.

(** An envelope of a given type: a value whose [type] property is that
    string. *)
Definition has_type (lit : string) (j : json) : bool :=
  match prop_type j with
  | Normal v => strict_eq v lit
  | Throw => false
  end.

End Json.
Export Json.

Module Ws.

(** [WebSocket.readyState]. *)
Inductive readyState : Type := CONNECTING | OPEN | CLOSING | CLOSED.

Definition readyState_eqb (a b : readyState) : bool :=
  match a, b with
  | CONNECTING, CONNECTING | OPEN, OPEN | CLOSING, CLOSING | CLOSED, CLOSED => true
  | _, _ => false
  end.

(** Environment model of the third-party [ws] package:
    [socket.close(..)] starts the closing handshake, so an open or
    connecting socket becomes [CLOSING]; closing a socket that is already
    closing or closed changes nothing. *)
Definition after_close (st : readyState) : readyState :=
  match st with
  | CONNECTING | OPEN => CLOSING
  | CLOSING => CLOSING
  | CLOSED => CLOSED
  end.

(** The bytes of a frame as the [message] event delivers them. *)
Definition buffer : Type := string.

Inductive socket : Type := frontendWs | elevenLabsWs.

(** What is passed to [send]. *)
Inductive payload : Type :=
| Stringify (j : json)    (* send(JSON.stringify(j)) *)
| Binary (data : buffer). (* send(data, { binary: true }) *)

(** The calls a handler makes on a socket. *)
Inductive call : Type :=
| Send (on : socket) (p : payload)
| Pong (on : socket)
| Close (on : socket) (code : option Z) (reason : option string).

End Ws.
Export Ws.

(** ** [src/websocketProxy.js]: [handleWebSocketConnection] *)

Module Proxy.

(** The variables one call of [handleWebSocketConnection] closes over:
    the two flags and the [readyState] of the two sockets. *)
Record session : Type := mkSession {
  frontendState : readyState;
  elevenLabsState : readyState;
  isElevenLabsClosed : bool;
  isElevenLabsReady : bool
}.

(** The state right after [handleWebSocketConnection] returns: the
    frontend socket was handed over by the server's [connection] event and
    is open, the agent socket has just been constructed. *)
Definition handleWebSocketConnection : session :=
  mkSession OPEN CONNECTING false false.

Definition set_frontendState (st : readyState) (s : session) : session :=
  mkSession st (elevenLabsState s) (isElevenLabsClosed s) (isElevenLabsReady s).
Definition set_elevenLabsState (st : readyState) (s : session) : session :=
  mkSession (frontendState s) st (isElevenLabsClosed s) (isElevenLabsReady s).
Definition set_isElevenLabsClosed (b : bool) (s : session) : session :=
  mkSession (frontendState s) (elevenLabsState s) b (isElevenLabsReady s).
Definition set_isElevenLabsReady (b : bool) (s : session) : session :=
  mkSession (frontendState s) (elevenLabsState s) (isElevenLabsClosed s) b.

(** The object literals the proxy serialises itself. *)
Definition connection_failed (details : string) : json :=
  JObj [("type", JStr "error");
        ("message", JStr "Connection failed to ElevenLabs.");
        ("details", JStr details)].
Definition conversationEnded : json := JObj [("type", JStr "conversationEnded")].
Definition elevenlabsReady : json := JObj [("type", JStr "elevenlabsReady")].
Definition processing_error : json :=
  JObj [("type", JStr "error");
        ("message", JStr "Error processing message from agent.")].

Section Handlers.

Variable JSON_parse : buffer -> option json.

(** [elevenLabsWs.on('open')]: only logs. *)
Definition elevenLabsWs_on_open (s : session) : session * list call :=
  (s, []).

(** [elevenLabsWs.on('error')]. *)
Definition elevenLabsWs_on_error (err_message : string) (s : session)
  : session * list call :=
  let s := set_isElevenLabsClosed true s in
  if readyState_eqb (frontendState s) OPEN
  then (s, [Send frontendWs (Stringify (connection_failed err_message))])
  else (s, []).

(** [elevenLabsWs.on('close')]. *)
Definition elevenLabsWs_on_close (code : Z) (reason : string) (s : session)
  : session * list call :=
  let s := set_isElevenLabsClosed true s in
  if negb (readyState_eqb (frontendState s) CLOSED)
     && negb (readyState_eqb (frontendState s) CLOSING)
  then (set_frontendState (after_close (frontendState s)) s,
        [Send frontendWs (Stringify conversationEnded);
         Close frontendWs None None])
  else (s, []).

(** The [catch] block of the agent-to-frontend handler. *)
Definition elevenLabsWs_parse_failed (s : session) : session * list call :=
  if readyState_eqb (frontendState s) OPEN
  then (s, [Send frontendWs (Stringify processing_error)])
  else (s, []).

(** [elevenLabsWs.on('message')]. *)
Definition elevenLabsWs_on_message (data : buffer) (isBinary : bool) (s : session)
  : session * list call :=
  if negb (readyState_eqb (frontendState s) OPEN) then (s, [])
  else if isBinary then (s, [Send frontendWs (Binary data)])
  else
    match JSON_parse data with
    | None => elevenLabsWs_parse_failed s
    | Some jsonData =>
        match prop_type jsonData with
        | Throw => elevenLabsWs_parse_failed s
        | Normal ty =>
            match template_literal ty with
            | Throw => elevenLabsWs_parse_failed s
            | Normal _ =>
                let '(s1, calls) :=
                  if strict_eq ty "ping" then
                    if readyState_eqb (elevenLabsState s) OPEN
                    then (s, [Pong elevenLabsWs])
                    else (s, [])
                  else if strict_eq ty "conversation_initiation_metadata" then
                    (set_isElevenLabsReady true s,
                     [Send frontendWs (Stringify elevenlabsReady)])
                  else (s, [])
                in
                (s1, calls ++ [Send frontendWs (Stringify jsonData)])
            end
        end
    end.

(** [frontendWs.on('message')]. *)
Definition frontendWs_on_message (data : buffer) (isBinary : bool) (s : session)
  : session * list call :=
  if isBinary then (s, [])
  else if negb (isElevenLabsReady s) then (s, [])
  else if negb (readyState_eqb (elevenLabsState s) OPEN) then (s, [])
  else
    match JSON_parse data with
    | None => (s, [])
    | Some textData =>
        match prop_type textData with
        | Throw => (s, [])
        | Normal ty =>
            match template_literal ty with
            | Throw => (s, [])
            | Normal _ =>
                if strict_eq ty "end_conversation" then
                  if readyState_eqb (elevenLabsState s) OPEN
                  then (set_elevenLabsState (after_close (elevenLabsState s)) s,
                        [Close elevenLabsWs (Some 1000%Z) (Some "User ended conversation")])
                  else (s, [])
                else (s, [Send elevenLabsWs (Stringify textData)])
            end
        end
    end.

(** The guard shared by the two frontend teardown handlers. *)
Definition elevenLabs_still_up (s : session) : bool :=
  negb (isElevenLabsClosed s)
  && (readyState_eqb (elevenLabsState s) OPEN
      || readyState_eqb (elevenLabsState s) CONNECTING).

(** [frontendWs.on('close')]. *)
Definition frontendWs_on_close (s : session) : session * list call :=
  if elevenLabs_still_up s
  then (set_elevenLabsState (after_close (elevenLabsState s)) s,
        [Close elevenLabsWs (Some 1000%Z) (Some "Frontend disconnected")])
  else (s, []).

(** [frontendWs.on('error')]. *)
Definition frontendWs_on_error (err_message : string) (s : session)
  : session * list call :=
  if elevenLabs_still_up s
  then (set_elevenLabsState (after_close (elevenLabsState s)) s,
        [Close elevenLabsWs (Some 1011%Z) (Some "Frontend error")])
  else (s, []).

(** *** Sessions as event sequences *)

(** The events the two sockets emit. *)
Inductive event : Type :=
| ElOpen
| ElError (err_message : string)
| ElClose (code : Z) (reason : string)
| ElMessage (data : buffer) (isBinary : bool)
| FeMessage (data : buffer) (isBinary : bool)
| FeClose
| FeError (err_message : string).

(** Environment model of the third-party [ws] package: the
    [readyState] a socket shows to the handler of one of its own
    events.  [open] is emitted by an open socket, [close] by a closed
    one, and an [error] is terminal for the socket, which is closing
    when the handler runs.  A socket that left [OPEN] never returns to
    it. *)
Definition socket_emits (e : event) (s : session) : session :=
  match e with
  | ElOpen =>
      match elevenLabsState s with
      | CONNECTING => set_elevenLabsState OPEN s
      | _ => s
      end
  | ElError _ => set_elevenLabsState (after_close (elevenLabsState s)) s
  | ElClose _ _ => set_elevenLabsState CLOSED s
  | ElMessage _ _ => s
  | FeMessage _ _ => s
  | FeClose => set_frontendState CLOSED s
  | FeError _ => set_frontendState (after_close (frontendState s)) s
  end.

Definition handler (e : event) : session -> session * list call :=
  match e with
  | ElOpen => elevenLabsWs_on_open
  | ElError m => elevenLabsWs_on_error m
  | ElClose c r => elevenLabsWs_on_close c r
  | ElMessage d b => elevenLabsWs_on_message d b
  | FeMessage d b => frontendWs_on_message d b
  | FeClose => frontendWs_on_close
  | FeError m => frontendWs_on_error m
  end.

Definition dispatch (e : event) (s : session) : session * list call :=
  handler e (socket_emits e s).

(** Running a session: the final state and every call made, in order. *)
Fixpoint run (s : session) (evs : list event) : session * list call :=
  match evs with
  | [] => (s, [])
  | e :: rest =>
      let '(s1, calls1) := dispatch e s in
      let '(s2, calls2) := run s1 rest in
      (s2, calls1 ++ calls2)
  end.

(** Observations on a call log. *)
Definition is_conversationEnded_send (c : call) : bool :=
  match c with
  | Send frontendWs (Stringify j) => has_type "conversationEnded" j
  | _ => false
  end.

Definition conversationEnded_count (calls : list call) : nat :=
  List.length (filter is_conversationEnded_send calls).

Definition is_upstream_send (c : call) : bool :=
  match c with
  | Send elevenLabsWs _ => true
  | _ => false
  end.

Definition is_downstream_send (c : call) : bool :=
  match c with
  | Send frontendWs _ => true
  | _ => false
  end.

Definition is_upstream_close (e : event) : bool :=
  match e with
  | ElClose _ _ => true
  | _ => false
  end.

(** A session is complete once the agent socket has emitted [close]. *)
Definition complete (evs : list event) : bool := existsb is_upstream_close evs.

(** An agent text frame that parses to an envelope of the given type. *)
Definition upstream_envelope (ty : string) (e : event) : bool :=
  match e with
  | ElMessage data false =>
      match JSON_parse data with
      | Some j => has_type ty j
      | None => false
      end
  | _ => false
  end.

Definition frontend_notifiable (s : session) : bool :=
  negb (readyState_eqb (frontendState s) CLOSED)
  && negb (readyState_eqb (frontendState s) CLOSING).

(** The same session event by event: each event with the calls its
    handler made. *)
Fixpoint trace (s : session) (evs : list event) : list (event * list call) :=
  match evs with
  | [] => []
  | e :: rest => (e, snd (dispatch e s)) :: trace (fst (dispatch e s)) rest
  end.

(** The [conversationEnded] envelopes sent by the handler of the agent
    socket's [close] event. *)
Definition close_notification (step : event * list call) : nat :=
  if is_upstream_close (fst step) then conversationEnded_count (snd step) else 0%nat.

Definition close_notifications (tr : list (event * list call)) : nat :=
  list_sum (map close_notification tr).

End Handlers.

End Proxy.

(** ** JavaScript numbers *)

Module JsNumber.

(** A number is [NaN], an infinity, or a finite value.  Finite values are
    exact rationals: rounding to binary64 or binary32 and the sign of
    zero are not modelled. *)
Inductive number : Type :=
| NaN
| Infinity (negative : bool)
| Finite (q : Q).

Definition Qltb (x y : Q) : bool := negb (Qle_bool y x).
Definition Qnegative (q : Q) : bool := Qltb q 0.
Definition Qzero (q : Q) : bool := Qeq_bool q 0.

Definition of_Z (z : Z) : number := Finite (inject_Z z).
Definition of_nat (n : nat) : number := of_Z (Z.of_nat n).

(** [a === b] on numbers. *)
Definition strict_equal (a b : number) : bool :=
  match a, b with
  | Finite x, Finite y => Qeq_bool x y
  | Infinity s, Infinity t => Bool.eqb s t
  | _, _ => false
  end.

(** [a < b]. *)
Definition less_than (a b : number) : bool :=
  match a, b with
  | NaN, _ | _, NaN => false
  | Finite x, Finite y => Qltb x y
  | Infinity s, Infinity t => s && negb t
  | Infinity s, Finite _ => s
  | Finite _, Infinity t => negb t
  end.

Definition neg (a : number) : number :=
  match a with
  | NaN => NaN
  | Infinity s => Infinity (negb s)
  | Finite x => Finite (- x)
  end.

Definition add (a b : number) : number :=
  match a, b with
  | NaN, _ | _, NaN => NaN
  | Infinity s, Infinity t => if Bool.eqb s t then Infinity s else NaN
  | Infinity s, Finite _ => Infinity s
  | Finite _, Infinity t => Infinity t
  | Finite x, Finite y => Finite (x + y)
  end.

Definition sub (a b : number) : number := add a (neg b).

Definition mul (a b : number) : number :=
  match a, b with
  | NaN, _ | _, NaN => NaN
  | Infinity s, Infinity t => Infinity (xorb s t)
  | Infinity s, Finite y =>
      if Qzero y then NaN else Infinity (xorb s (Qnegative y))
  | Finite x, Infinity t =>
      if Qzero x then NaN else Infinity (xorb (Qnegative x) t)
  | Finite x, Finite y => Finite (x * y)
  end.

Definition div (a b : number) : number :=
  match a, b with
  | NaN, _ | _, NaN => NaN
  | Infinity _, Infinity _ => NaN
  | Infinity s, Finite y => Infinity (xorb s (Qnegative y))
  | Finite _, Infinity _ => Finite 0
  | Finite x, Finite y =>
      if Qzero y
      then if Qzero x then NaN else Infinity (Qnegative x)
      else Finite (x / y)
  end.

(** [Math.min(a, b)] and [Math.max(a, b)]. *)
Definition Math_min (a b : number) : number :=
  match a, b with
  | NaN, _ | _, NaN => NaN
  | _, _ => if less_than b a then b else a
  end.

Definition Math_max (a b : number) : number :=
  match a, b with
  | NaN, _ | _, NaN => NaN
  | _, _ => if less_than a b then b else a
  end.

(** [Math.floor(a)]. *)
Definition Math_floor (a : number) : number :=
  match a with
  | Finite x => of_Z (Qfloor x)
  | _ => a
  end.

(** [Math.round(a)]: the nearest integer, a tie going up. *)
Definition Math_round (a : number) : number :=
  match a with
  | Finite x => of_Z (Qfloor (x + (1 # 2)))
  | _ => a
  end.

(** The integral part of a rational, rounding toward zero. *)
Definition Qtruncate (x : Q) : Z := Z.quot (Qnum x) (Zpos (Qden x)).

(** [ToInt16]: what an [Int16Array] stores when a number is assigned to
    one of its elements. *)
Definition ToInt16 (a : number) : Z :=
  match a with
  | Finite x => ((Qtruncate x + 32768) mod 65536 - 32768)%Z
  | _ => 0%Z
  end.

(** The element index a number denotes as a property key of an array:
    a non-negative integer, or none. *)
Definition array_index (a : number) : option nat :=
  match a with
  | Finite x =>
      if Qeq_bool (inject_Z (Qfloor x)) x && (0 <=? Qfloor x)%Z
      then Some (Z.to_nat (Qfloor x))
      else None
  | _ => None
  end.

(** [array[k]] for a number [k]: [undefined] outside the array. *)
Definition array_get (array : list number) (k : number) : option number :=
  match array_index k with
  | Some n => nth_error array n
  | None => None
  end.

(** [ToNumber] of the result of an element read: [undefined] is [NaN]. *)
Definition ToNumber (v : option number) : number :=
  match v with
  | Some a => a
  | None => NaN
  end.

(** [array[i] = v] for an index [i]; a write outside a typed array is
    ignored. *)
Fixpoint array_set (array : list number) (i : nat) (v : number) : list number :=
  match array, i with
  | [], _ => []
  | _ :: rest, O => v :: rest
  | a :: rest, S i' => a :: array_set rest i' v
  end.

(** [new Float32Array(n)]: [ToIndex] turns [NaN] into 0, drops the
    fractional part of a finite length and rejects a negative or infinite
    length with a [RangeError]; the elements start at zero. *)
Definition new_Float32Array (n : number) : completion (list number) :=
  match n with
  | NaN => Normal []
  | Infinity _ => Throw
  | Finite x =>
      if (Qtruncate x <? 0)%Z then Throw
      else Normal (repeat (Finite 0) (Z.to_nat (Qtruncate x)))
  end.

End JsNumber.
Export JsNumber.

(** ** [src/public/client.js]: capture side, in exact arithmetic *)

(** The functions of the capture side over [JsNumber]: every operation
    returns its exact result, a stored sample is not rounded, and an
    array of any length can be allocated.  The same functions over
    binary64 follow in [CaptureIeee]. *)

Module Capture.

(** The loop variables of [resampleAudio]'s body at iteration [i]. *)
Record taps : Type := mkTaps {
  index1 : number;
  index2 : number;
  fraction : number
}.

Definition resample_taps (inputLength step : number) (i : nat) : taps :=
  let index := mul (of_nat i) step in
  let index1 := Math_floor index in
  let index2 := Math_min (add index1 (of_Z 1)) (sub inputLength (of_Z 1)) in
  let fraction := sub index index1 in
  mkTaps index1 index2 fraction.

(** The value assigned to [outputAudioData[i]]. *)
Definition resample_sample (inputAudioData : list number) (t : taps) : number :=
  add (ToNumber (array_get inputAudioData (index1 t)))
      (mul (fraction t)
           (sub (ToNumber (array_get inputAudioData (index2 t)))
                (ToNumber (array_get inputAudioData (index1 t))))).

(** One iteration of the [for] loop. *)
Definition resample_body (inputAudioData : list number) (inputLength step : number)
    (outputAudioData : list number) (i : nat) : list number :=
  array_set outputAudioData i
      (resample_sample inputAudioData (resample_taps inputLength step i)).

(** [resampleAudio(inputAudioData, inputSampleRate, outputSampleRate)].
    The loop runs for [i = 0, 1, ..] while [i < outputLength]; these are
    the indices of the freshly allocated array (lemma
    [loop_guard_matches_allocation] below). *)
Definition resampleAudio (inputAudioData : list number)
    (inputSampleRate outputSampleRate : number) : completion (list number) :=
  if strict_equal inputSampleRate outputSampleRate then Normal inputAudioData
  else
    let inputLength := of_nat (List.length inputAudioData) in
    let outputLength :=
      Math_round (div (mul inputLength outputSampleRate) inputSampleRate) in
    match new_Float32Array outputLength with
    | Throw => Throw
    | Normal outputAudioData =>
        let step := div inputSampleRate outputSampleRate in
        Normal (fold_left (resample_body inputAudioData inputLength step)
                          (seq 0 (List.length outputAudioData))
                          outputAudioData)
    end.

(** The body of the [Int16Array] fill loop of [onaudioprocess]:
    [pcmData[i]] for the sample [processedData[i]]. *)
Definition clamp (sample : number) : number :=
  Math_max (of_Z (-1)) (Math_min (of_Z 1) sample).

Definition pcm16 (sample : number) : Z :=
  let clamped := clamp sample in
  ToInt16 (if less_than clamped (of_Z 0)
           then mul clamped (of_Z 32768)   (* 0x8000 *)
           else mul clamped (of_Z 32767)). (* 0x7FFF *)

(** *** Reference definitions, written from the specification *)

(** "for output sample index i, let step = srcRate/dstRate, idx = i*step,
    i0 = floor(idx), i1 = min(i0+1, len-1), frac = idx-i0;
    out[i] = in[i0] + frac*(in[i1]-in[i0])".  The index arithmetic is
    over the rationals and the integers, the samples are numbers. *)
Definition spec_interpolate (input : list number) (srcRate dstRate : Q) (i : nat)
  : number :=
  let len := Z.of_nat (List.length input) in
  let step := srcRate / dstRate in
  let idx := inject_Z (Z.of_nat i) * step in
  let i0 := Qfloor idx in
  let i1 := Z.min (i0 + 1) (len - 1) in
  let frac := idx - inject_Z i0 in
  let at_ (k : Z) := nth (Z.to_nat k) input NaN in
  add (at_ i0) (mul (Finite frac) (sub (at_ i1) (at_ i0))).

(** "the output has length round(len * dstRate / srcRate)". *)
Definition output_length (len : nat) (srcRate dstRate : Q) : Z :=
  Qfloor (inject_Z (Z.of_nat len) * dstRate / srcRate + (1 # 2)).

(** "When rates are equal, output equals input unchanged"; otherwise the
    interpolated samples, one for each output index. *)
Definition spec_resample (input : list number) (srcRate dstRate : Q) : list number :=
  if Qeq_bool srcRate dstRate then input
  else map (spec_interpolate input srcRate dstRate)
           (seq 0 (Z.to_nat (output_length (List.length input) srcRate dstRate))).

(** "clamp before conversion ... negative values scale by 32768,
    non-negative values scale by 32767, truncate toward integer". *)
Definition spec_pcm16 (x : Q) : Z :=
  let clamped := if Qltb x (-1) then -1 else if Qltb 1 x then 1 else x in
  Qtruncate (if Qltb clamped 0 then clamped * 32768 else clamped * 32767).

End Capture.

(** ** IEEE 754 binary floating point *)

(** A finite number is a sign and a magnitude, an exact rational that is
    a value of the format.  An operation computes its exact result and
    rounds it to the format: to the nearest value, a tie going to the one
    whose last significand bit is even; below the normal range the
    spacing of the values stays [2 ^ emin], and a rounded result of
    [2 ^ emax] or more is an infinity. *)

Module Ieee754.

(** A binary format: [precision] bits of significand, the least positive
    value [2 ^ emin], and overflow from [2 ^ emax] on. *)
Record format : Type := mkFormat {
  precision : Z;
  emin : Z;
  emax : Z
}.

(** The format of a JavaScript number and of a [Float32Array] element. *)
Definition binary64 : format := mkFormat 53 (-1074) 1024.
Definition binary32 : format := mkFormat 24 (-149) 128.

Definition pow2 (z : Z) : Q := 2 ^ z.
Arguments pow2 z : simpl never.

(** The exponent of a positive rational: [2 ^ ilog2 a <= a < 2 ^ (ilog2 a + 1)]. *)
Definition ilog2 (a : Q) : Z :=
  let c := (Z.log2 (Qnum a) - Z.log2 (Zpos (Qden a)))%Z in
  if Qle_bool (pow2 c) a then c else (c - 1)%Z.

(** The nearest integer, a tie going to the even one. *)
Definition round_even (y : Q) : Z :=
  let f := Qfloor y in
  match Qcompare (y - inject_Z f) (1 # 2) with
  | Lt => f
  | Gt => (f + 1)%Z
  | Eq => if Z.even f then f else (f + 1)%Z
  end.

(** The exponent of the last significand bit of the values near [a]:
    the spacing of the format there is [2 ^ quantum a]. *)
Definition quantum (fmt : format) (a : Q) : Z :=
  Z.max (ilog2 a - (precision fmt - 1)) (emin fmt).

(** Rounding a magnitude to the nearest multiple of the spacing, ties to
    even (the default rounding of IEEE 754). *)
Definition round_magnitude (fmt : format) (a : Q) : Q :=
  let q := quantum fmt a in
  Qred (inject_Z (round_even (a / pow2 q)) * pow2 q).

(** A floating-point datum: [NaN], an infinity, or a sign and a
    magnitude; the two zeros are [Finite false 0] and [Finite true 0]. *)
Inductive number : Type :=
| NaN
| Infinity (negative : bool)
| Finite (negative : bool) (magnitude : Q).

(** The result of an operation whose exact value has the given sign and
    magnitude: the magnitude is rounded, and a result beyond the largest
    finite value is an infinity. *)
Definition round_to (fmt : format) (negative : bool) (a : Q) : number :=
  let v := round_magnitude fmt a in
  if Qle_bool (pow2 (emax fmt)) v then Infinity negative else Finite negative v.

Definition signed (negative : bool) (magnitude : Q) : Q :=
  if negative then - magnitude else magnitude.

(** The number a numeric literal or an exact rational denotes. *)
Definition of_Q (x : Q) : number := round_to binary64 (Qnegative x) (Qabs x).
Definition of_Z (z : Z) : number := of_Q (inject_Z z).
Definition of_nat (n : nat) : number := of_Z (Z.of_nat n).

Definition is_negative (a : number) : bool :=
  match a with
  | NaN => false
  | Infinity s => s
  | Finite s _ => s
  end.

(** [a === b] on numbers; the two zeros are equal. *)
Definition strict_equal (a b : number) : bool :=
  match a, b with
  | Finite s x, Finite t y => Qeq_bool (signed s x) (signed t y)
  | Infinity s, Infinity t => Bool.eqb s t
  | _, _ => false
  end.

(** [a < b]. *)
Definition less_than (a b : number) : bool :=
  match a, b with
  | NaN, _ | _, NaN => false
  | Finite s x, Finite t y => Qltb (signed s x) (signed t y)
  | Infinity s, Infinity t => s && negb t
  | Infinity s, Finite _ _ => s
  | Finite _ _, Infinity t => negb t
  end.

Definition neg (a : number) : number :=
  match a with
  | NaN => NaN
  | Infinity s => Infinity (negb s)
  | Finite s x => Finite (negb s) x
  end.

(** [a + b]: an exact sum of zero is [-0] when both operands are
    negative zeros and [+0] otherwise. *)
Definition add (a b : number) : number :=
  match a, b with
  | NaN, _ | _, NaN => NaN
  | Infinity s, Infinity t => if Bool.eqb s t then Infinity s else NaN
  | Infinity s, Finite _ _ => Infinity s
  | Finite _ _, Infinity t => Infinity t
  | Finite s x, Finite t y =>
      let v := signed s x + signed t y in
      if Qzero v then Finite (s && t) 0
      else round_to binary64 (Qnegative v) (Qabs v)
  end.

Definition sub (a b : number) : number := add a (neg b).

Definition mul (a b : number) : number :=
  match a, b with
  | NaN, _ | _, NaN => NaN
  | Infinity s, Infinity t => Infinity (xorb s t)
  | Infinity s, Finite t y => if Qzero y then NaN else Infinity (xorb s t)
  | Finite s x, Infinity t => if Qzero x then NaN else Infinity (xorb s t)
  | Finite s x, Finite t y => round_to binary64 (xorb s t) (x * y)
  end.

Definition div (a b : number) : number :=
  match a, b with
  | NaN, _ | _, NaN => NaN
  | Infinity _, Infinity _ => NaN
  | Infinity s, Finite t _ => Infinity (xorb s t)
  | Finite s _, Infinity t => Finite (xorb s t) 0
  | Finite s x, Finite t y =>
      if Qzero y
      then if Qzero x then NaN else Infinity (xorb s t)
      else round_to binary64 (xorb s t) (x / y)
  end.

(** [Math.min(a, b)] and [Math.max(a, b)]; [-0] is below [+0]. *)
Definition Math_min (a b : number) : number :=
  match a, b with
  | NaN, _ | _, NaN => NaN
  | _, _ =>
      if less_than b a then b
      else if less_than a b then a
      else if is_negative a then a else b
  end.

Definition Math_max (a b : number) : number :=
  match a, b with
  | NaN, _ | _, NaN => NaN
  | _, _ =>
      if less_than a b then b
      else if less_than b a then a
      else if is_negative a then b else a
  end.

(** [Math.floor(a)]; the floor of a number is a number, nothing is
    rounded. *)
Definition Math_floor (a : number) : number :=
  match a with
  | Finite s x => Finite s (inject_Z (Z.abs (Qfloor (signed s x))))
  | _ => a
  end.

(** [Math.round(a)]: the nearest integer, a tie going up; the result
    keeps the sign of [a] when it is zero. *)
Definition Math_round (a : number) : number :=
  match a with
  | Finite s x => Finite s (inject_Z (Z.abs (Qfloor (signed s x + (1 # 2)))))
  | _ => a
  end.

(** The integral part of a number, as an integer. *)
Definition truncate (s : bool) (x : Q) : Z :=
  if s then (- Qfloor x)%Z else Qfloor x.

(** The floor of a number, as an integer. *)
Definition floor_Z (a : number) : Z :=
  match a with
  | Finite s x => Qfloor (signed s x)
  | _ => 0%Z
  end.

(** A positive finite number of the format binary64: rounding leaves its
    magnitude as it is. *)
Definition is_positive_binary64 (a : number) : bool :=
  match a with
  | Finite false x =>
      Qltb 0 x && Qeq_bool (round_magnitude binary64 x) x && Qltb x (pow2 1024)
  | _ => false
  end.

(** [ToInt16]: what an [Int16Array] stores when a number is assigned to
    one of its elements. *)
Definition ToInt16 (a : number) : Z :=
  match a with
  | Finite s x => ((truncate s x + 32768) mod 65536 - 32768)%Z
  | _ => 0%Z
  end.

(** What a [Float32Array] stores when a number is assigned to one of its
    elements: the number rounded to binary32. *)
Definition fround (a : number) : number :=
  match a with
  | Finite s x => round_to binary32 s x
  | _ => a
  end.

(** The element index a number denotes as a key of a typed array: a
    non-negative integer ([-0] is the index 0), or none. *)
Definition array_index (a : number) : option nat :=
  match a with
  | Finite s x =>
      if Qzero x then Some 0%nat
      else if negb s && Qeq_bool (inject_Z (Qfloor x)) x
      then Some (Z.to_nat (Qfloor x))
      else None
  | _ => None
  end.

(** [array[k]] for a number [k]: [undefined] outside the array. *)
Definition array_get (array : list number) (k : number) : option number :=
  match array_index k with
  | Some n => nth_error array n
  | None => None
  end.

(** [ToNumber] of the result of an element read: [undefined] is [NaN]. *)
Definition ToNumber (v : option number) : number :=
  match v with
  | Some a => a
  | None => NaN
  end.

(** [array[i] = v] on a [Float32Array]; a write outside the array is
    ignored. *)
Fixpoint array_set (array : list number) (i : nat) (v : number) : list number :=
  match array, i with
  | [], _ => []
  | _ :: rest, O => fround v :: rest
  | a :: rest, S i' => a :: array_set rest i' v
  end.

(** [ToIndex], applied to the length passed to a typed array
    constructor: [NaN] is 0, the fractional part is dropped, and a
    negative length or one above [2 ^ 53 - 1] is a [RangeError]
    (here [None]). *)
Definition ToIndex (n : number) : option Z :=
  match n with
  | NaN => Some 0%Z
  | Infinity _ => None
  | Finite s x =>
      let len := truncate s x in
      if (len <? 0)%Z || (2 ^ 53 - 1 <? len)%Z then None else Some len
  end.

(** The datum in the representation of the Standard Library's
    specification of IEEE 754 arithmetic: a sign, an integer significand
    and the exponent of its last bit. *)
Definition to_spec_float (fmt : format) (a : number) : spec_float :=
  match a with
  | NaN => S754_nan
  | Infinity s => S754_infinity s
  | Finite s x =>
      match Qfloor (x / pow2 (quantum fmt x)) with
      | Zpos m => S754_finite s m (quantum fmt x)
      | _ => S754_zero s
      end
  end.

Section Engine.

(** The longest typed array the engine allocates. *)
Variable max_length : Z.

(** [new Float32Array(n)]: a length the engine cannot allocate is a
    [RangeError]; the elements start at [+0]. *)
Definition new_Float32Array (n : number) : completion (list number) :=
  match ToIndex n with
  | None => Throw
  | Some len =>
      if (max_length <? len)%Z then Throw
      else Normal (repeat (Finite false 0) (Z.to_nat len))
  end.

End Engine.

End Ieee754.

(** ** [src/public/client.js]: the capture side in binary64 *)

Module CaptureIeee.

Import Ieee754.

(** The loop variables of [resampleAudio]'s body at iteration [i]. *)
Record taps : Type := mkTaps {
  index1 : number;
  index2 : number;
  fraction : number
}.

Definition resample_taps (inputLength step : number) (i : nat) : taps :=
  let index := mul (of_nat i) step in
  let index1 := Math_floor index in
  let index2 := Math_min (add index1 (of_Z 1)) (sub inputLength (of_Z 1)) in
  let fraction := sub index index1 in
  mkTaps index1 index2 fraction.

(** The right-hand side of the assignment to [outputAudioData[i]]: the
    two elements read from the input, and the interpolation. *)
Definition interpolate (first second fraction : number) : number :=
  add first (mul fraction (sub second first)).

Definition resample_sample (inputAudioData : list number) (t : taps) : number :=
  interpolate (ToNumber (array_get inputAudioData (index1 t)))
              (ToNumber (array_get inputAudioData (index2 t)))
              (fraction t).

(** One iteration of the [for] loop. *)
Definition resample_body (inputAudioData : list number) (inputLength step : number)
    (outputAudioData : list number) (i : nat) : list number :=
  array_set outputAudioData i
      (resample_sample inputAudioData (resample_taps inputLength step i)).

Section Engine.

Variable max_length : Z.

(** [resampleAudio(inputAudioData, inputSampleRate, outputSampleRate)].
    The loop runs for [i = 0, 1, ..] while [i < outputLength]; these are
    the indices of the freshly allocated array (lemma
    [guard_matches_allocated_length] below). *)
Definition resampleAudio (inputAudioData : list number)
    (inputSampleRate outputSampleRate : number) : completion (list number) :=
  if strict_equal inputSampleRate outputSampleRate then Normal inputAudioData
  else
    let inputLength := of_nat (List.length inputAudioData) in
    let outputLength :=
      Math_round (div (mul inputLength outputSampleRate) inputSampleRate) in
    match new_Float32Array max_length outputLength with
    | Throw => Throw
    | Normal outputAudioData =>
        let step := div inputSampleRate outputSampleRate in
        Normal (fold_left (resample_body inputAudioData inputLength step)
                          (seq 0 (List.length outputAudioData))
                          outputAudioData)
    end.

End Engine.

(** *** Reference definitions, written from the specification *)

(** "for output sample index i, let step = srcRate/dstRate, idx = i*step,
    i0 = floor(idx), i1 = min(i0+1, len-1), frac = idx-i0;
    out[i] = in[i0] + frac*(in[i1]-in[i0])".  The indices are integers;
    every operation on numbers is the binary64 operation, and the sample
    is rounded to binary32 when it is stored. *)
Definition spec_interpolate (input : list number) (srcRate dstRate : number) (i : nat)
  : number :=
  let len := Z.of_nat (List.length input) in
  let step := div srcRate dstRate in
  let idx := mul (of_nat i) step in
  let i0 := floor_Z idx in
  let i1 := Z.min (i0 + 1) (len - 1) in
  let frac := sub idx (of_Z i0) in
  let at_ (k : Z) := nth (Z.to_nat k) input NaN in
  fround (add (at_ i0) (mul frac (sub (at_ i1) (at_ i0)))).

(** "the output has length round(len * dstRate / srcRate)". *)
Definition spec_output_length (len : nat) (srcRate dstRate : number) : number :=
  Math_round (div (mul (of_nat len) dstRate) srcRate).

(** "When rates are equal, output equals input unchanged"; otherwise the
    interpolated samples, one for each output index, unless the output
    is longer than the longest typed array. *)
Definition spec_resample (max_length : Z) (input : list number)
    (srcRate dstRate : number) : completion (list number) :=
  if strict_equal srcRate dstRate then Normal input
  else
    let n := spec_output_length (List.length input) srcRate dstRate in
    if less_than (of_Z max_length) n then Throw
    else Normal (map (spec_interpolate input srcRate dstRate)
                     (seq 0 (Z.to_nat (floor_Z n)))).

(** The body of the [Int16Array] fill loop of [onaudioprocess]. *)
Definition clamp (sample : number) : number :=
  Math_max (of_Z (-1)) (Math_min (of_Z 1) sample).

Definition pcm16 (sample : number) : Z :=
  let clamped := clamp sample in
  ToInt16 (if less_than clamped (of_Z 0)
           then mul clamped (of_Z 32768)   (* 0x8000 *)
           else mul clamped (of_Z 32767)). (* 0x7FFF *)

(** [const ELEVENLABS_SAMPLE_RATE = 16000]. *)
Definition ELEVENLABS_SAMPLE_RATE : number := of_Z 16000.

(** [scriptProcessor.onaudioprocess] for one input frame, given the flag
    [isElevenLabsReady], the socket [ws] (absent before the first
    connection) with its [readyState], and [audioContext.sampleRate].  The
    result is the content of [pcmData] when the frame is sent as one
    [user_audio_chunk] message, and nothing when the callback returns
    early. *)
Definition onaudioprocess (max_length : Z) (isElevenLabsReady : bool)
    (ws : option readyState) (inputSampleRate : number) (inputData : list number)
  : option (list Z) :=
  let ws_open :=
    match ws with
    | Some st => readyState_eqb st OPEN
    | None => false
    end in
  if negb isElevenLabsReady || negb ws_open then None
  else
    let resampled :=
      if negb (strict_equal inputSampleRate ELEVENLABS_SAMPLE_RATE)
      then resampleAudio max_length inputData inputSampleRate ELEVENLABS_SAMPLE_RATE
      else Normal inputData in
    match resampled with
    | Throw => None
    | Normal processedData => Some (map pcm16 processedData)
    end.

End CaptureIeee.

(** ** [src/public/client.js]: playback side *)

Module Playback.

Definition ArrayBuffer : Type := list byte.
Definition byteLength (b : ArrayBuffer) : nat := List.length b.

(** The globals [audioQueue] and [isAudioPlaying], the calls of
    [playRawPcmAudioQueued] whose promise has not settled yet (one
    suspended activation of [processAudioQueue] awaits each of them,
    oldest first), and two histories kept for the statements: every
    buffer taken by [audioQueue.shift()] and every buffer handed to
    [playRawPcmAudioQueued], in order. *)
Record player : Type := mkPlayer {
  audioQueue : list ArrayBuffer;
  isAudioPlaying : bool;
  rendering : list ArrayBuffer;
  shifted : list ArrayBuffer;
  played : list ArrayBuffer
}.

Definition initial : player := mkPlayer [] false [] [] [].

(** The [while (audioQueue.length > 0)] loop of [processAudioQueue], from
    its test up to the next [await] or to the end of the function. *)
Fixpoint while_loop (queue : list ArrayBuffer) (p : player) : player :=
  match queue with
  | [] =>
      (* the loop is left: isAudioPlaying = false *)
      mkPlayer [] false (rendering p) (shifted p) (played p)
  | rawPcmArrayBuffer :: rest =>
      (* const rawPcmArrayBuffer = audioQueue.shift() *)
      let p := mkPlayer rest (isAudioPlaying p) (rendering p)
                        (shifted p ++ [rawPcmArrayBuffer]) (played p) in
      if (0 <? byteLength rawPcmArrayBuffer)%nat then
        (* await playRawPcmAudioQueued(rawPcmArrayBuffer) *)
        mkPlayer (audioQueue p) (isAudioPlaying p)
                 (rendering p ++ [rawPcmArrayBuffer])
                 (shifted p) (played p ++ [rawPcmArrayBuffer])
      else while_loop rest p
  end.

(** [processAudioQueue()], run up to its first [await] or to its end. *)
Definition processAudioQueue (p : player) : player :=
  let p := mkPlayer (audioQueue p) true (rendering p) (shifted p) (played p) in
  while_loop (audioQueue p) p.

(** [case 'audio'] of [ws.onmessage], from [audioQueue.push] on, for the
    decoded buffer. *)
Definition on_audio (rawPcmArrayBuffer : ArrayBuffer) (p : player) : player :=
  let p := mkPlayer (audioQueue p ++ [rawPcmArrayBuffer]) (isAudioPlaying p)
                    (rendering p) (shifted p) (played p) in
  if negb (isAudioPlaying p) then processAudioQueue p else p.

Fixpoint remove_nth {A : Type} (k : nat) (l : list A) : list A :=
  match l, k with
  | [], _ => []
  | _ :: rest, O => rest
  | a :: rest, S k' => a :: remove_nth k' rest
  end.

(** The promise of the [k]-th pending render settles (fulfilled by
    [onended] or [onerror], or rejected and caught): the activation that
    awaited it goes on with the loop. *)
Definition on_settled (k : nat) (p : player) : player :=
  match nth_error (rendering p) k with
  | None => p
  | Some _ =>
      let p := mkPlayer (audioQueue p) (isAudioPlaying p)
                        (remove_nth k (rendering p)) (shifted p) (played p) in
      while_loop (audioQueue p) p
  end.

Inductive event : Type :=
| Audio (rawPcmArrayBuffer : ArrayBuffer)
| Settled (k : nat).

Definition step (p : player) (e : event) : player :=
  match e with
  | Audio raw => on_audio raw p
  | Settled k => on_settled k p
  end.

Definition run (evs : list event) : player := fold_left step evs initial.

(** The buffers enqueued by a sequence of events, in order. *)
Fixpoint enqueued (evs : list event) : list ArrayBuffer :=
  match evs with
  | [] => []
  | Audio raw :: rest => raw :: enqueued rest
  | Settled _ :: rest => enqueued rest
  end.

Definition nonempty (b : ArrayBuffer) : bool := (0 <? byteLength b)%nat.

(** What holds of the player between two events, [E] being the buffers
    enqueued so far. *)
Record consistent (E : list ArrayBuffer) (p : player) : Prop := {
  fifo : shifted p ++ audioQueue p = E;
  rendered_in_order : played p = filter nonempty (shifted p);
  one_render : (List.length (rendering p) <= 1)%nat;
  playing_iff_rendering :
    isAudioPlaying p = negb (List.length (rendering p) =? 0)%nat;
  idle_drained : isAudioPlaying p = false -> audioQueue p = []
}.

End Playback.

(** ** Sample frames and sessions *)

Module Samples.

Import Proxy.

(** The double quote character. *)
Definition dq : string := String (Ascii.ascii_of_nat 34) EmptyString.

(** The text frame [{"type":"<ty>"}]. *)
Definition envelope_text (ty : string) : buffer :=
  ("{" ++ dq ++ "type" ++ dq ++ ":" ++ dq ++ ty ++ dq ++ "}")%string.

Definition envelope (ty : string) : json := JObj [("type", JStr ty)].

Definition known_types : list string :=
  ["ping"; "conversation_initiation_metadata"; "agent_response";
   "user_audio_chunk"; "end_conversation"].

(** [JSON.parse] on the frames [{"type":"<ty>"}] of the types above;
    the samples use no other text frame, and every other text is taken
    for a syntax error. *)
Definition sample_parse (data : buffer) : option json :=
  match find (fun ty => String.eqb data (envelope_text ty)) known_types with
  | Some ty => Some (envelope ty)
  | None => None
  end.

(** The text frame [{"type":{"toString":0}}] and its parse: an envelope
    whose [type] does not convert to a string. *)
Definition unprintable_text : buffer :=
  ("{" ++ dq ++ "type" ++ dq ++ ":{" ++ dq ++ "toString" ++ dq ++ ":0}}")%string.

Definition unprintable : json := JObj [("type", JObj [("toString", JNum 0)])].

Definition parse_with_unprintable (data : buffer) : option json :=
  if String.eqb data unprintable_text then Some unprintable else sample_parse data.

(** A session that has become ready: both sockets open, metadata seen. *)
Definition ready_session : session := mkSession OPEN OPEN false true.

(** A session whose agent socket is open but has not announced itself. *)
Definition waiting_session : session := mkSession OPEN OPEN false false.

Definition pcm_bytes : buffer := "abcd"%string.

(** Six samples of a capture frame. *)
Definition frame : list number :=
  [Finite 0; Finite (3 # 10); Finite (6 # 10); Finite (9 # 10); Finite (-1); Finite (1 # 2)].

(** Three decoded audio buffers. *)
Definition chunk1 : Playback.ArrayBuffer := [Byte.x01; Byte.x02].
Definition chunk2 : Playback.ArrayBuffer := [Byte.x03; Byte.x04].
Definition chunk3 : Playback.ArrayBuffer := [Byte.x05; Byte.x06].

End Samples.

(** ** Sample frames in binary64 *)

Module IeeeSamples.

Import Ieee754.

(** A typed array limit: [2 ^ 32 - 1] elements. *)
Definition sample_max_length : Z := 2 ^ 32 - 1.

(** Six samples of a capture frame; each is a binary32 value. *)
Definition ramp : list number :=
  [Finite false 0; Finite false (1 # 4); Finite false (1 # 2);
   Finite false (3 # 4); Finite false 1; Finite false 0].

(** The same samples as exact rationals. *)
Definition ramp_exact : list JsNumber.number :=
  [JsNumber.Finite 0; JsNumber.Finite (1 # 4); JsNumber.Finite (1 # 2);
   JsNumber.Finite (3 # 4); JsNumber.Finite 1; JsNumber.Finite 0].

End IeeeSamples.

(** ** Observations on the calls of a session *)

Module ProxyCalls.

Import Proxy.

Definition socket_of (c : call) : socket :=
  match c with
  | Send on _ => on
  | Pong on => on
  | Close on _ _ => on
  end.

Definition socket_eqb (a b : socket) : bool :=
  match a, b with
  | frontendWs, frontendWs | elevenLabsWs, elevenLabsWs => true
  | _, _ => false
  end.

(** The calls made on one socket. *)
Definition on_socket (sock : socket) (c : call) : bool :=
  socket_eqb (socket_of c) sock.

Definition is_close_call (c : call) : bool :=
  match c with
  | Close _ _ _ => true
  | _ => false
  end.

(** [send] and [pong] write to the socket. *)
Definition writes (c : call) : bool := negb (is_close_call c).

Definition close_count (sock : socket) (calls : list call) : nat :=
  List.length (filter (fun c => is_close_call c && on_socket sock c) calls).

Definition state_of (sock : socket) (s : session) : readyState :=
  match sock with
  | frontendWs => frontendState s
  | elevenLabsWs => elevenLabsState s
  end.

(** A socket that is closing or closed. *)
Definition shut (st : readyState) : bool :=
  readyState_eqb st CLOSING || readyState_eqb st CLOSED.

(** The text frames of one direction, as events. *)
Definition from_agent (data : buffer) : event := ElMessage data false.
Definition from_frontend (data : buffer) : event := FeMessage data false.

(** The [type] of an envelope can be read and logged: the value is not
    [null], and its [type] converts to a string. *)
Definition type_prints (j : json) : bool :=
  match prop_type j with
  | Normal ty =>
      match template_literal ty with
      | Normal _ => true
      | Throw => false
      end
  | Throw => false
  end.

(** An envelope the agent-to-frontend handler only forwards: its [type]
    can be read and logged, and is neither [ping] nor the metadata
    envelope. *)
Definition plain_for_frontend (j : json) : bool :=
  type_prints j
  && negb (has_type "ping" j)
  && negb (has_type "conversation_initiation_metadata" j).

(** An envelope the frontend-to-agent handler only forwards. *)
Definition plain_for_agent (j : json) : bool :=
  type_prints j && negb (has_type "end_conversation" j).

(** The agent socket reports its end: an [error] or a [close] event. *)
Definition is_upstream_end (e : event) : bool :=
  match e with
  | ElError _ | ElClose _ _ => true
  | _ => false
  end.

End ProxyCalls.

(** ** [src/public/client.js]: the sample decoder *)

Module CaptureFrame.

Import Capture.

(** [channelData[i] = int16Array[i] / 32768] in [playRawPcmAudioQueued]. *)
Definition channel_sample (int16 : Z) : number := div (of_Z int16) (of_Z 32768).


End CaptureFrame.

(** ** [src/public/client.js]: tearing the capture down *)

Module Recorder.

(** The calls made on the two Web Audio nodes.  [disconnect()] without
    arguments does not throw, so the [catch] block of
    [stopLocalRecording] is never entered. *)
Inductive node_call : Type :=
| mediaStreamSource_disconnect
| scriptProcessor_disconnect
| scriptProcessor_clear_onaudioprocess.

(** The globals the teardown code reads and writes; for the two node
    variables, whether they hold a node. *)
Record recorder : Type := mkRecorder {
  isRecording : bool;
  isElevenLabsReady : bool;
  scriptProcessor : bool;
  mediaStreamSource : bool
}.

(** [stopLocalRecording()]. *)
Definition stopLocalRecording (r : recorder) : recorder * list node_call :=
  if negb (isRecording r) then (r, [])
  else if scriptProcessor r then
    (mkRecorder false false false false,
     (if mediaStreamSource r then [mediaStreamSource_disconnect] else [])
     ++ [scriptProcessor_disconnect; scriptProcessor_clear_onaudioprocess])
  else (mkRecorder false false (scriptProcessor r) (mediaStreamSource r), []).

(** [ws.onclose]: the two flags are cleared, then [stopLocalRecording()]
    is called. *)
Definition ws_onclose (r : recorder) : recorder * list node_call :=
  stopLocalRecording
    (mkRecorder false false (scriptProcessor r) (mediaStreamSource r)).

(** [ws.onerror]. *)
Definition ws_onerror (r : recorder) : recorder * list node_call :=
  (mkRecorder false (isElevenLabsReady r) (scriptProcessor r) (mediaStreamSource r), []).

(** [case 'conversationEnded'] and [case 'error'] of [ws.onmessage]. *)
Definition on_conversationEnded (r : recorder) : recorder * list node_call :=
  stopLocalRecording r.
Definition on_error_message (r : recorder) : recorder * list node_call :=
  stopLocalRecording r.

Inductive teardown : Type :=
| WsClose
| WsError
| ConversationEnded
| ServerError.

Definition handle (e : teardown) : recorder -> recorder * list node_call :=
  match e with
  | WsClose => ws_onclose
  | WsError => ws_onerror
  | ConversationEnded => on_conversationEnded
  | ServerError => on_error_message
  end.

Fixpoint run (r : recorder) (evs : list teardown) : recorder * list node_call :=
  match evs with
  | [] => (r, [])
  | e :: rest =>
      let '(r1, calls1) := handle e r in
      let '(r2, calls2) := run r1 rest in
      (r2, calls1 ++ calls2)
  end.

(** The socket itself reports its end. *)
Definition socket_event (e : teardown) : bool :=
  match e with
  | WsClose | WsError => true
  | ConversationEnded | ServerError => false
  end.

End Recorder.

(* ================================================================== *)
(** * Part II: the proxy session *)
(* ================================================================== *)

Module ProxyFacts.

Import Proxy Samples.

(** Case analysis on the state of the two sockets and the two flags. *)
Ltac session_cases s :=
  let fe := fresh "fe" in
  let el := fresh "el" in
  let closed := fresh "closed" in
  let ready := fresh "ready" in
  destruct s as [fe el closed ready]; destruct fe, el, closed, ready.

(** Split on every [JSON_parse], [prop_type], template literal and [===]
    a handler evaluates. *)
Ltac parse_cases :=
  repeat match goal with
    | |- context [match ?parse ?d with Some _ => _ | None => _ end] =>
        destruct (parse d) eqn:?
    | |- context [match prop_type ?j with Normal _ => _ | Throw => _ end] =>
        destruct (prop_type j) eqn:?
    | |- context [match template_literal ?v with Normal _ => _ | Throw => _ end] =>
        destruct (template_literal v) eqn:?
    | |- context [if strict_eq ?v ?l then _ else _] =>
        destruct (strict_eq v l) eqn:?
    end.

(** A value that is [===] to a string literal is a string, which a
    template literal prints as it is. *)
Lemma strict_eq_prints (ty : option json) (lit : string) :
  strict_eq ty lit = true -> template_literal ty = Normal tt.
Proof.
  destruct ty as [[ | b | n | str | items | fields]|]; simpl; congruence.
Qed.

Section WithParser.

Variable JSON_parse : buffer -> option json.

Local Abbreviation run := (run JSON_parse).
Local Abbreviation dispatch := (dispatch JSON_parse).
Local Abbreviation trace := (trace JSON_parse).
Local Abbreviation metadata := (upstream_envelope JSON_parse "conversation_initiation_metadata").
Local Abbreviation ended := (upstream_envelope JSON_parse "conversationEnded").

Lemma run_cons (s : session) (e : event) (evs : list event) :
  run s (e :: evs) =
    (fst (run (fst (dispatch e s)) evs),
     snd (dispatch e s) ++ snd (run (fst (dispatch e s)) evs)).
Proof.
  simpl. destruct (dispatch e s) as [s1 c1]. simpl.
  destruct (run s1 evs) as [s2 c2]. reflexivity.
Qed.

Lemma run_app (s : session) (pre post : list event) :
  run s (pre ++ post) =
    (fst (run (fst (run s pre)) post),
     snd (run s pre) ++ snd (run (fst (run s pre)) post)).
Proof.
  revert s. induction pre as [|e pre IH]; intros s.
  - simpl. destruct (run s post); reflexivity.
  - rewrite <- app_comm_cons, !run_cons, IH. simpl.
    now rewrite app_assoc.
Qed.

(** *** The readiness gate *)

Lemma frontendWs_on_message_not_ready (s : session) (data : buffer) (isBinary : bool) :
  isElevenLabsReady s = false ->
  frontendWs_on_message JSON_parse data isBinary s = (s, []).
Proof.
  intros Hready. unfold frontendWs_on_message.
  rewrite Hready. now destruct isBinary.
Qed.

(** Only the agent's metadata envelope sets the flag, and nothing is
    sent to the agent while it is clear. *)
Lemma dispatch_keeps_gate_shut (s : session) (e : event) :
  isElevenLabsReady s = false ->
  metadata e = false ->
  isElevenLabsReady (fst (dispatch e s)) = false
  /\ filter is_upstream_send (snd (dispatch e s)) = [].
Proof.
  intros Hready Hmeta.
  destruct e as [ | m | c r | data b | data b | | m ]; unfold dispatch; simpl.
  - now destruct (elevenLabsState s).
  - unfold elevenLabsWs_on_error; simpl.
    destruct (readyState_eqb (frontendState s) OPEN); simpl; auto.
  - unfold elevenLabsWs_on_close; simpl.
    destruct (negb _ && negb _); simpl; auto.
  - unfold elevenLabsWs_on_message, elevenLabsWs_parse_failed.
    destruct (readyState_eqb (frontendState s) OPEN); simpl; auto.
    destruct b; simpl; auto.
    simpl in Hmeta. unfold has_type in Hmeta.
    parse_cases; simpl; auto; try congruence;
      destruct (readyState_eqb (elevenLabsState s) OPEN); simpl; auto.
  - rewrite frontendWs_on_message_not_ready by assumption. auto.
  - unfold frontendWs_on_close.
    destruct (elevenLabs_still_up _); simpl; auto.
  - unfold frontendWs_on_error.
    destruct (elevenLabs_still_up _); simpl; auto.
Qed.

Lemma run_keeps_gate_shut (evs : list event) (s : session) :
  isElevenLabsReady s = false ->
  existsb metadata evs = false ->
  isElevenLabsReady (fst (run s evs)) = false
  /\ filter is_upstream_send (snd (run s evs)) = [].
Proof.
  revert s. induction evs as [|e evs IH]; intros s Hready Hmeta.
  - auto.
  - simpl in Hmeta. apply orb_false_elim in Hmeta as [He Hevs].
    destruct (dispatch_keeps_gate_shut s e Hready He) as [Hr1 Hc1].
    destruct (IH _ Hr1 Hevs) as [Hr2 Hc2].
    rewrite run_cons; simpl. split; [assumption|].
    now rewrite filter_app, Hc1, Hc2.
Qed.

(** *** The [conversationEnded] notification *)

Lemma conversationEnded_count_app (a b : list call) :
  conversationEnded_count (a ++ b) =
    (conversationEnded_count a + conversationEnded_count b)%nat.
Proof.
  unfold conversationEnded_count. now rewrite filter_app, length_app.
Qed.

(** The frontend socket, once closed or closing, stays so; and the handler
    of the agent's [close] leaves it so. *)
Lemma dispatch_frontend_monotone (s : session) (e : event) :
  frontend_notifiable (fst (dispatch e s)) = true ->
  frontend_notifiable s = true /\ is_upstream_close e = false.
Proof.
  destruct e as [ | m | c r | data b | data b | | m ]; unfold dispatch.
  - session_cases s; simpl; auto.
  - session_cases s; simpl; auto.
  - session_cases s; simpl; auto; discriminate.
  - cbn [handler socket_emits is_upstream_close].
    unfold elevenLabsWs_on_message, elevenLabsWs_parse_failed.
    destruct (readyState_eqb (frontendState s) OPEN); simpl; auto.
    destruct b; simpl; auto.
    parse_cases; destruct (readyState_eqb (elevenLabsState s) OPEN); simpl; auto.
  - cbn [handler socket_emits is_upstream_close].
    unfold frontendWs_on_message.
    destruct b; simpl; auto.
    destruct (isElevenLabsReady s); simpl; auto.
    destruct (readyState_eqb (elevenLabsState s) OPEN); simpl; auto.
    parse_cases; simpl; auto.
  - session_cases s; simpl; auto; discriminate.
  - session_cases s; simpl; auto; discriminate.
Qed.

(** The handler of the agent's [close] sends the envelope when the frontend
    socket is neither closed nor closing. *)
Lemma close_handler_notifies (s : session) (e : event) :
  close_notification (e, snd (dispatch e s)) =
    (if is_upstream_close e && frontend_notifiable s then 1 else 0)%nat.
Proof.
  unfold close_notification. cbn [fst snd].
  destruct e; cbn [is_upstream_close andb]; try reflexivity.
  session_cases s; reflexivity.
Qed.

(** No other handler sends one, unless it forwards one from the agent. *)
Lemma other_handlers_do_not_notify (s : session) (e : event) :
  ended e = false ->
  is_upstream_close e = false ->
  conversationEnded_count (snd (dispatch e s)) = 0%nat.
Proof.
  intros Hended Hclose.
  destruct e as [ | m | c r | data b | data b | | m ]; unfold dispatch;
    try discriminate.
  - reflexivity.
  - session_cases s; reflexivity.
  - cbn [handler socket_emits].
    unfold elevenLabsWs_on_message, elevenLabsWs_parse_failed.
    simpl in Hended. unfold has_type in Hended.
    destruct (readyState_eqb (frontendState s) OPEN); simpl; auto.
    destruct b; simpl; auto.
    parse_cases; try discriminate;
      destruct (readyState_eqb (elevenLabsState s) OPEN);
      unfold conversationEnded_count; simpl;
      unfold has_type; rewrite ?Heqc; try rewrite Hended; simpl; auto.
  - cbn [handler socket_emits].
    unfold frontendWs_on_message.
    destruct b; simpl; auto.
    destruct (isElevenLabsReady s); simpl; auto.
    destruct (readyState_eqb (elevenLabsState s) OPEN); simpl; auto.
    parse_cases; simpl; auto.
  - session_cases s; reflexivity.
  - session_cases s; reflexivity.
Qed.

Lemma run_calls_of_trace (evs : list event) (s : session) :
  snd (run s evs) = List.concat (map snd (trace s evs)).
Proof.
  revert s. induction evs as [|e evs IH]; intros s; [reflexivity|].
  rewrite run_cons. cbn [snd Proxy.trace map List.concat]. now rewrite IH.
Qed.

Lemma trace_cons (s : session) (e : event) (evs : list event) :
  close_notifications (trace s (e :: evs)) =
    (close_notification (e, snd (dispatch e s))
     + close_notifications (trace (fst (dispatch e s)) evs))%nat.
Proof. reflexivity. Qed.

Lemma trace_notifies (evs : list event) (s : session) :
  (frontend_notifiable s = false -> close_notifications (trace s evs) = 0%nat)
  /\ (close_notifications (trace s evs) <= 1)%nat
  /\ (close_notifications (trace s evs) = 1%nat <->
      exists pre code reason post,
        evs = pre ++ ElClose code reason :: post
        /\ frontend_notifiable (fst (run s pre)) = true).
Proof.
  revert s. induction evs as [|e evs IH]; intros s.
  - simpl. repeat split; auto; try discriminate.
    intros (pre & c & r & post & Heq & _). now destruct pre.
  - pose proof (dispatch_frontend_monotone s e) as Hafter.
    destruct (IH (fst (dispatch e s))) as (IH0 & IH1 & IH2).
    rewrite trace_cons, close_handler_notifies.
    destruct (is_upstream_close e && frontend_notifiable s) eqn:Hnow.
    + apply andb_prop in Hnow as [Hclose Hopen].
      assert (Hshut : frontend_notifiable (fst (dispatch e s)) = false).
      { destruct (frontend_notifiable (fst (dispatch e s))) eqn:Hn; auto.
        destruct (Hafter eq_refl) as [_ Hno]. congruence. }
      rewrite (IH0 Hshut). repeat split; auto.
      * intros Hn. congruence.
      * intros _. destruct e; try discriminate.
        exists [], code, reason, evs. auto.
    + assert (Hshut : frontend_notifiable s = false ->
                      frontend_notifiable (fst (dispatch e s)) = false).
      { intros Hn. destruct (frontend_notifiable (fst (dispatch e s))) eqn:Hn'; auto.
        destruct (Hafter eq_refl) as [Hyes _]. congruence. }
      simpl. repeat split; auto.
      * intros H1. destruct (proj1 IH2 H1) as (pre & c & r & post & Heq & Hopen).
        exists (e :: pre), c, r, post. split.
        -- now rewrite Heq.
        -- now rewrite run_cons.
      * intros (pre & c & r & post & Heq & Hopen). apply IH2.
        destruct pre as [|e' pre].
        -- simpl in Heq, Hopen. injection Heq as -> ->.
           simpl in Hnow. congruence.
        -- simpl in Heq. injection Heq as -> ->.
           rewrite run_cons in Hopen. exists pre, c, r, post. auto.
Qed.

(** When the agent sends no envelope of that type itself, the envelopes
    sent by the [close] handler are all the frontend gets. *)
Lemma only_close_notifies (evs : list event) (s : session) :
  existsb ended evs = false ->
  conversationEnded_count (snd (run s evs)) = close_notifications (trace s evs).
Proof.
  revert s. induction evs as [|e evs IH]; intros s Hended; [reflexivity|].
  simpl in Hended. apply orb_false_elim in Hended as [He Hevs].
  rewrite run_cons. cbn [snd]. rewrite conversationEnded_count_app, (IH _ Hevs).
  rewrite trace_cons. f_equal.
  unfold close_notification. cbn [fst snd].
  destruct (is_upstream_close e) eqn:Hclose; [reflexivity|].
  now apply other_handlers_do_not_notify.
Qed.

(** *** Agent envelopes *)

(** Whatever its [type], once it has been read and logged, an envelope
    from the agent reaches the single
    [frontendWs.send(JSON.stringify(jsonData))] that ends the [try] block:
    no branch before it returns. *)
Lemma agent_envelope_reaches_final_send
    (s : session) (data : buffer) (jsonData : json) (ty : option json) :
  frontendState s = OPEN ->
  JSON_parse data = Some jsonData ->
  prop_type jsonData = Normal ty ->
  template_literal ty = Normal tt ->
  exists before,
    snd (elevenLabsWs_on_message JSON_parse data false s)
    = before ++ [Send frontendWs (Stringify jsonData)].
Proof.
  intros Hfe Hparse Hty Hlog. unfold elevenLabsWs_on_message.
  rewrite Hfe, Hparse, Hty, Hlog. simpl.
  destruct (strict_eq ty "ping").
  - destruct (readyState_eqb (elevenLabsState s) OPEN).
    + now exists [Pong elevenLabsWs].
    + now exists [].
  - destruct (strict_eq ty "conversation_initiation_metadata").
    + now exists [Send frontendWs (Stringify elevenlabsReady)].
    + now exists [].
Qed.

Lemma ping_falls_through (s : session) (data : buffer) (jsonData : json) :
  frontendState s = OPEN ->
  JSON_parse data = Some jsonData ->
  has_type "ping" jsonData = true ->
  elevenLabsWs_on_message JSON_parse data false s
  = (s, (if readyState_eqb (elevenLabsState s) OPEN then [Pong elevenLabsWs] else [])
        ++ [Send frontendWs (Stringify jsonData)]).
Proof.
  intros Hfe Hparse Hping. unfold elevenLabsWs_on_message, has_type in *.
  rewrite Hfe, Hparse. simpl.
  destruct (prop_type jsonData) as [ty|]; [|discriminate].
  rewrite (strict_eq_prints _ _ Hping), Hping.
  now destruct (readyState_eqb (elevenLabsState s) OPEN).
Qed.

(** *** The claims about the session *)

(** C1 (as amended).  In every session the handler of the agent socket's
    [close] event sends the [conversationEnded] envelope to the frontend at
    most once: exactly once when the agent socket emits [close] at a moment
    where the frontend socket is neither closed nor closing, whatever made
    it close, and not at all otherwise.  No other [conversationEnded]
    envelope reaches the frontend unless the agent itself sends one, which
    is forwarded like any other envelope. *)
Theorem conversationEnded_at_most_once (evs : list event) :
  (close_notifications (trace handleWebSocketConnection evs) <= 1)%nat
  /\ (close_notifications (trace handleWebSocketConnection evs) = 1%nat <->
      exists pre code reason post,
        evs = pre ++ ElClose code reason :: post
        /\ frontend_notifiable (fst (run handleWebSocketConnection pre)) = true)
  /\ (existsb ended evs = false ->
      conversationEnded_count (snd (run handleWebSocketConnection evs))
      = close_notifications (trace handleWebSocketConnection evs)).
Proof.
  destruct (trace_notifies evs handleWebSocketConnection) as (_ & Hle & Hiff).
  repeat split.
  - exact Hle.
  - apply Hiff.
  - apply Hiff.
  - apply only_close_notifies.
Qed.

(** C3.  As long as no [conversation_initiation_metadata] envelope has
    arrived from the agent, the readiness flag is clear, nothing has been
    sent on the agent socket, and a further frontend message, text or
    binary, is dropped: the handler makes no call and leaves the session
    state, which has no place to keep a message, as it was. *)
Theorem readiness_gate_drops_frontend_messages
    (evs : list event) (data : buffer) (isBinary : bool) :
  existsb metadata evs = false ->
  isElevenLabsReady (fst (run handleWebSocketConnection evs)) = false
  /\ filter is_upstream_send (snd (run handleWebSocketConnection evs)) = []
  /\ dispatch (FeMessage data isBinary) (fst (run handleWebSocketConnection evs))
     = (fst (run handleWebSocketConnection evs), []).
Proof.
  intros Hmeta.
  destruct (run_keeps_gate_shut evs handleWebSocketConnection eq_refl Hmeta)
    as [Hready Hsent].
  repeat split; try assumption.
  unfold dispatch; simpl. now apply frontendWs_on_message_not_ready.
Qed.

(** C4 (as amended).  A frontend text message that parses to an envelope
    of type [end_conversation] is never sent to the agent.  When the
    session is ready and the agent socket is open, the handler calls
    [close(1000, "User ended conversation")] on the agent socket, which
    starts closing; in every other state the message is dropped and the
    agent socket is not closed. *)
Theorem end_conversation_is_consumed
    (s : session) (data : buffer) (textData : json) :
  JSON_parse data = Some textData ->
  has_type "end_conversation" textData = true ->
  frontendWs_on_message JSON_parse data false s =
    (if isElevenLabsReady s && readyState_eqb (elevenLabsState s) OPEN
     then (set_elevenLabsState CLOSING s,
           [Close elevenLabsWs (Some 1000%Z) (Some "User ended conversation")])
     else (s, []))
  /\ filter is_upstream_send (snd (frontendWs_on_message JSON_parse data false s)) = [].
Proof.
  intros Hparse Htype. unfold frontendWs_on_message, has_type in *.
  rewrite Hparse.
  destruct (prop_type textData) as [ty|]; [|discriminate].
  rewrite (strict_eq_prints _ _ Htype), Htype.
  destruct (isElevenLabsReady s); simpl; auto.
  destruct (elevenLabsState s); simpl; auto.
Qed.

(** C5 (as amended).  A binary frame from the agent is passed to the
    frontend unchanged, as a binary frame, when the frontend socket is open
    and is dropped otherwise; a binary frame from the frontend is always
    dropped and nothing is sent to the agent for it. *)
Theorem binary_frames_flow_downstream_only (s : session) (data : buffer) :
  elevenLabsWs_on_message JSON_parse data true s =
    (s, if readyState_eqb (frontendState s) OPEN
        then [Send frontendWs (Binary data)] else [])
  /\ frontendWs_on_message JSON_parse data true s = (s, []).
Proof.
  unfold elevenLabsWs_on_message, frontendWs_on_message.
  now destruct (readyState_eqb (frontendState s) OPEN).
Qed.

(** C10.  For a frontend text message that parses to an envelope of type
    [end_conversation]: while the readiness flag is clear the message is
    discarded, no call is made and the agent socket keeps its state; and
    whenever the handler does close the agent socket, the session is
    ready. *)
Theorem end_conversation_needs_readiness
    (s : session) (data : buffer) (textData : json) :
  JSON_parse data = Some textData ->
  has_type "end_conversation" textData = true ->
  (isElevenLabsReady s = false ->
   frontendWs_on_message JSON_parse data false s = (s, []))
  /\ (forall code reason,
        In (Close elevenLabsWs code reason)
           (snd (frontendWs_on_message JSON_parse data false s)) ->
        isElevenLabsReady s = true
        /\ code = Some 1000%Z /\ reason = Some "User ended conversation").
Proof.
  intros Hparse Htype. split.
  - apply frontendWs_on_message_not_ready.
  - intros code reason Hin.
    destruct (isElevenLabsReady s) eqn:Hready.
    + unfold frontendWs_on_message, has_type in *.
      rewrite Hready, Hparse in Hin.
      destruct (prop_type textData) as [ty|]; [|discriminate].
      rewrite (strict_eq_prints _ _ Htype), Htype in Hin.
      destruct (readyState_eqb (elevenLabsState s) OPEN); simpl in Hin.
      * destruct Hin as [Heq|[]]. injection Heq as <- <-. auto.
      * contradiction.
    + rewrite frontendWs_on_message_not_ready in Hin by assumption.
      contradiction.
Qed.

End WithParser.

End ProxyFacts.


(* ================================================================== *)
(** * Part III: the capture pipeline in exact arithmetic *)
(* ================================================================== *)

Module CaptureFacts.

Import Capture.
Local Open Scope Q_scope.

(** *** Truncation *)

Lemma Qltb_lt (x y : Q) : Qltb x y = true <-> x < y.
Proof.
  unfold Qltb. rewrite negb_true_iff, <- not_true_iff_false, Qle_bool_iff.
  split; [apply Qnot_le_lt | apply Qlt_not_le].
Qed.

Lemma Qltb_ge (x y : Q) : Qltb x y = false <-> y <= x.
Proof.
  unfold Qltb. rewrite negb_false_iff. apply Qle_bool_iff.
Qed.

(** Truncation toward zero is the floor of a non-negative rational and the
    ceiling of a negative one. *)
Lemma Qtruncate_floor_ceiling (x : Q) :
  Qtruncate x = if (0 <=? Qnum x)%Z then Qfloor x else Qceiling x.
Proof.
  destruct x as [n d]. unfold Qtruncate, Qceiling, Qfloor. cbn [Qnum Qden Qopp].
  destruct (Z.leb_spec 0 n) as [Hn|Hn].
  - apply Z.quot_div_nonneg; lia.
  - rewrite <- (Z.opp_involutive n) at 1.
    rewrite Z.quot_opp_l by lia.
    rewrite Z.quot_div_nonneg by lia. reflexivity.
Qed.

Lemma Qnum_nonneg_compat (x y : Q) : x == y -> (0 <=? Qnum x)%Z = (0 <=? Qnum y)%Z.
Proof.
  destruct x as [n d], y as [m e]. unfold Qeq. cbn [Qnum Qden]. intros H.
  destruct (Z.leb_spec 0 n), (Z.leb_spec 0 m); try reflexivity; nia.
Qed.

Lemma Qtruncate_compat (x y : Q) : x == y -> Qtruncate x = Qtruncate y.
Proof.
  intros H. rewrite !Qtruncate_floor_ceiling, (Qnum_nonneg_compat x y H).
  destruct (0 <=? Qnum y)%Z.
  - now rewrite H.
  - now rewrite H.
Qed.

Lemma Qtruncate_Z (z : Z) : Qtruncate (inject_Z z) = z.
Proof. unfold Qtruncate, inject_Z. cbn [Qnum Qden]. apply Z.quot_1_r. Qed.

Lemma Qtruncate_bounds (x : Q) (lo hi : Z) :
  (lo <= 0 <= hi)%Z -> inject_Z lo <= x <= inject_Z hi ->
  (lo <= Qtruncate x <= hi)%Z.
Proof.
  intros Hz [Hlo Hhi]. rewrite Qtruncate_floor_ceiling.
  destruct (Z.leb_spec 0 (Qnum x)) as [Hn|Hn].
  - split.
    + assert (0 <= Qfloor x)%Z; [|lia].
      rewrite <- (Qfloor_Z 0). apply Qfloor_resp_le.
      destruct x as [n d]. unfold Qle. cbn in *. lia.
    + rewrite <- (Qfloor_Z hi). now apply Qfloor_resp_le.
  - split.
    + rewrite <- (Qceiling_Z lo). now apply Qceiling_resp_le.
    + assert (Qceiling x <= 0)%Z; [|lia].
      rewrite <- (Qceiling_Z 0). apply Qceiling_resp_le.
      destruct x as [n d]. unfold Qle. cbn in *. lia.
Qed.

(** *** The PCM conversion *)

Lemma ToInt16_in_range (a : number) : (-32768 <= ToInt16 a <= 32767)%Z.
Proof.
  destruct a as [ | s | x]; simpl; try lia.
  pose proof (Z.mod_pos_bound (Qtruncate x + 32768) 65536 eq_refl). lia.
Qed.

Lemma ToInt16_no_wrap (x : Q) :
  inject_Z (-32768) <= x <= inject_Z 32767 -> ToInt16 (Finite x) = Qtruncate x.
Proof.
  intros H. apply Qtruncate_bounds in H; [|lia].
  unfold ToInt16. rewrite Z.mod_small; lia.
Qed.

Lemma pcm16_matches_spec (x : Q) : pcm16 (Finite x) = spec_pcm16 x.
Proof.
  unfold pcm16, spec_pcm16, clamp, Math_max, Math_min, of_Z, less_than, mul.
  destruct (Qltb x (inject_Z 1)) eqn:H1.
  - destruct (Qltb (inject_Z (-1)) x) eqn:H2.
    + apply Qltb_lt in H1, H2. unfold inject_Z in *.
      assert (Qltb x (-1) = false) as -> by (apply Qltb_ge; lra).
      assert (Qltb 1 x = false) as -> by (apply Qltb_ge; lra).
      change (0 # 1) with 0.
      destruct (Qltb x 0) eqn:H3.
      * apply Qltb_lt in H3. apply ToInt16_no_wrap. unfold inject_Z. lra.
      * apply Qltb_ge in H3. apply ToInt16_no_wrap. unfold inject_Z. lra.
    + apply Qltb_lt in H1. apply Qltb_ge in H2. unfold inject_Z in *.
      assert (Qltb 1 x = false) as -> by (apply Qltb_ge; lra).
      destruct (Qltb x (-1)) eqn:H4.
      * reflexivity.
      * apply Qltb_ge in H4.
        assert (Hx : x == -1) by lra.
        assert (Qltb x 0 = true) as -> by (apply Qltb_lt; lra).
        change (Qtruncate (-32768 # 1) = Qtruncate (x * 32768)).
        apply Qtruncate_compat. rewrite Hx. reflexivity.
  - apply Qltb_ge in H1. unfold inject_Z in *.
    assert (Qltb x (-1) = false) as -> by (apply Qltb_ge; lra).
    destruct (Qltb 1 x) eqn:H5.
    + reflexivity.
    + apply Qltb_ge in H5.
      assert (Hx : x == 1) by lra.
      assert (Qltb x 0 = false) as -> by (apply Qltb_ge; lra).
      change (Qtruncate (32767 # 1) = Qtruncate (x * 32767)).
      apply Qtruncate_compat. rewrite Hx. reflexivity.
Qed.

(** *** Filling the output array *)





(** *** Reading and rounding *)




Lemma Qfloor_half (z : Z) (x : Q) : x == inject_Z z + (1 # 2) -> Qfloor x = z.
Proof.
  intros Hx. rewrite Hx.
  pose proof (Qfloor_le (inject_Z z + (1 # 2))) as Hlo.
  pose proof (Qlt_floor (inject_Z z + (1 # 2))) as Hhi.
  set (f := Qfloor (inject_Z z + (1 # 2))) in *.
  rewrite inject_Z_plus in Hhi. change (inject_Z 1) with 1 in Hhi.
  apply Z.le_antisymm; apply Z.lt_succ_r; rewrite Zlt_Qlt; unfold Z.succ;
    rewrite inject_Z_plus; change (inject_Z 1) with 1; lra.
Qed.

Lemma output_length_empty (src dst : Q) : output_length 0 src dst = 0%Z.
Proof.
  unfold output_length. apply Qfloor_half.
  unfold Qdiv. simpl (Z.of_nat 0). unfold inject_Z. ring.
Qed.

(** *** [resampleAudio] *)



Section PositiveRates.

Variables src dst : Q.
Hypothesis src_positive : 0 < src.
Hypothesis dst_positive : 0 < dst.

Lemma output_length_nonneg (len : nat) : (0 <= output_length len src dst)%Z.
Proof.
  unfold output_length.
  rewrite <- (Qfloor_Z 0). apply Qfloor_resp_le.
  assert (0 <= inject_Z (Z.of_nat len)).
  { change 0 with (inject_Z 0). rewrite <- Zle_Qle. lia. }
  assert (0 <= inject_Z (Z.of_nat len) * dst / src).
  { apply Qle_shift_div_l; [assumption|]. nra. }
  unfold inject_Z at 1. lra.
Qed.


(** The loop test [i < outputLength] holds exactly for the indices of the
    array allocated with that length. *)
Lemma loop_guard_matches_allocation (len i : nat) :
  less_than (of_nat i) (of_Z (output_length len src dst))
  = (i <? Z.to_nat (output_length len src dst))%nat.
Proof.
  pose proof (output_length_nonneg len) as Hn.
  unfold of_nat, of_Z, less_than.
  destruct (Nat.ltb_spec i (Z.to_nat (output_length len src dst))) as [Hi|Hi].
  - apply Qltb_lt. rewrite <- Zlt_Qlt. lia.
  - apply Qltb_ge. rewrite <- Zle_Qle. lia.
Qed.





End PositiveRates.

(** C7.  The conversion of a sample to [Int16]: every result lies in
    [-32768, 32767]; for a finite sample it is the sample clamped to
    [-1, 1], scaled by 32768 when negative and by 32767 otherwise, and
    truncated toward zero, the 16-bit wrap-around of the array store never
    taking effect; and 1.0, -1.0 and 0.0 give 32767, -32768 and 0. *)
Theorem pcm16_clamps_scales_and_truncates :
  (forall sample : number, (-32768 <= pcm16 sample <= 32767)%Z)
  /\ (forall x : Q, pcm16 (Finite x) = spec_pcm16 x)
  /\ pcm16 (Finite 1) = 32767%Z
  /\ pcm16 (Finite (-1)) = (-32768)%Z
  /\ pcm16 (Finite 0) = 0%Z.
Proof.
  repeat split; try reflexivity.
  - apply ToInt16_in_range.
  - apply ToInt16_in_range.
  - apply pcm16_matches_spec.
Qed.

End CaptureFacts.

(* ================================================================== *)
(** * Part III, continued: the capture pipeline in binary64 *)
(* ================================================================== *)

(** ** Rounding *)

Module Ieee754Facts.

Import Ieee754.
Local Open Scope Q_scope.

(** *** Powers of two *)

Lemma pow2_pos (z : Z) : 0 < pow2 z.
Proof. apply Qpower_0_lt. reflexivity. Qed.

Lemma pow2_add (a b : Z) : pow2 (a + b) == pow2 a * pow2 b.
Proof. apply Qpower_plus. discriminate. Qed.

Lemma pow2_sub (a b : Z) : pow2 (a - b) == pow2 a / pow2 b.
Proof. unfold pow2. rewrite Qpower_minus by discriminate. reflexivity. Qed.

Lemma pow2_le (a b : Z) : (a <= b)%Z -> pow2 a <= pow2 b.
Proof. intros. apply Qpower_le_compat_l; [assumption | discriminate]. Qed.

Lemma pow2_lt (a b : Z) : (a < b)%Z -> pow2 a < pow2 b.
Proof. intros. apply Qpower_lt_compat_l; [assumption | reflexivity]. Qed.

Lemma pow2_lt_inv (a b : Z) : pow2 a < pow2 b -> (a < b)%Z.
Proof. intros H. apply (Qpower_lt_compat_l_inv 2); [assumption | reflexivity]. Qed.

Lemma pow2_Z (z : Z) : (0 <= z)%Z -> pow2 z == inject_Z (2 ^ z).
Proof. intros. unfold pow2. now rewrite Zpower_Qpower. Qed.

Lemma pow2_succ (z : Z) : pow2 (z + 1) == 2 * pow2 z.
Proof. rewrite pow2_add. change (pow2 1) with 2. ring. Qed.

Lemma pow2_pred (z : Z) : pow2 (z - 1) == pow2 z / 2.
Proof. rewrite pow2_sub. reflexivity. Qed.

(** *** The exponent of a rational *)

Lemma ilog2_spec (a : Q) : 0 < a -> pow2 (ilog2 a) <= a /\ a < pow2 (ilog2 a + 1).
Proof.
  intros Ha. destruct a as [n d].
  assert (Hn : (0 < n)%Z).
  { unfold Qlt in Ha. simpl in Ha. lia. }
  unfold ilog2. cbn [Qnum Qden].
  set (ln := Z.log2 n). set (ld := Z.log2 (Zpos d)).
  destruct (Z.log2_spec n Hn) as [Hn1 Hn2].
  destruct (Z.log2_spec (Zpos d) eq_refl) as [Hd1 Hd2].
  fold ln in Hn1, Hn2. fold ld in Hd1, Hd2.
  assert (Hln : (0 <= ln)%Z) by apply Z.log2_nonneg.
  assert (Hld : (0 <= ld)%Z) by apply Z.log2_nonneg.
  assert (Hq : n # d == inject_Z n / inject_Z (Zpos d)) by apply Qmake_Qdiv.
  assert (Hdpos : 0 < inject_Z (Zpos d)) by reflexivity.
  assert (Hlow : pow2 (ln - ld - 1) <= n # d).
  { rewrite Hq. apply Qle_shift_div_l; [assumption|].
    replace (ln - ld - 1)%Z with (ln - (ld + 1))%Z by lia.
    rewrite pow2_sub. unfold Qdiv. rewrite <- Qmult_assoc.
    rewrite (Qmult_comm (/ _)).
    apply Qle_trans with (pow2 ln * 1).
    - apply Qmult_le_l; [apply pow2_pos|].
      apply Qle_shift_div_r; [apply pow2_pos|]. rewrite Qmult_1_l.
      rewrite pow2_Z by lia. rewrite <- Zle_Qle. unfold Z.succ in Hd2. lia.
    - rewrite Qmult_1_r, pow2_Z by lia. now rewrite <- Zle_Qle. }
  assert (Hhigh : n # d < pow2 (ln - ld + 1)).
  { rewrite Hq. apply Qlt_shift_div_r; [assumption|].
    replace (ln - ld + 1)%Z with (ln + 1 - ld)%Z by lia.
    rewrite pow2_sub.
    apply Qlt_le_trans with (pow2 (ln + 1)).
    - rewrite pow2_Z by lia. rewrite <- Zlt_Qlt. unfold Z.succ in Hn2. lia.
    - unfold Qdiv. rewrite <- Qmult_assoc.
      rewrite <- (Qmult_1_r (pow2 (ln + 1))) at 1.
      apply Qmult_le_l; [apply pow2_pos|].
      rewrite Qmult_comm. apply Qle_shift_div_l; [apply pow2_pos|].
      rewrite Qmult_1_l, pow2_Z by lia. now rewrite <- Zle_Qle. }
  destruct (Qle_bool (pow2 (ln - ld)) (n # d)) eqn:Hc.
  - apply Qle_bool_iff in Hc. split; assumption.
  - replace (ln - ld - 1 + 1)%Z with (ln - ld)%Z by lia.
    split; [assumption|].
    apply Qnot_le_lt. intros Hle. apply Qle_bool_iff in Hle. congruence.
Qed.

Lemma ilog2_unique (a : Q) (e : Z) :
  pow2 e <= a -> a < pow2 (e + 1) -> ilog2 a = e.
Proof.
  intros H1 H2.
  assert (Ha : 0 < a) by (eapply Qlt_le_trans; [apply pow2_pos | exact H1]).
  destruct (ilog2_spec a Ha) as [H3 H4].
  assert (ilog2 a < e + 1)%Z.
  { apply pow2_lt_inv. eapply Qle_lt_trans; eassumption. }
  assert (e < ilog2 a + 1)%Z.
  { apply pow2_lt_inv. eapply Qle_lt_trans; eassumption. }
  lia.
Qed.

(** *** Rounding to the nearest integer *)

Lemma round_even_close (y : Q) :
  Qabs (inject_Z (round_even y) - y) <= 1 # 2.
Proof.
  unfold round_even.
  pose proof (Qfloor_le y) as H1. pose proof (Qlt_floor y) as H2.
  rewrite inject_Z_plus in H2. change (inject_Z 1) with 1 in H2.
  apply Qabs_Qle_condition.
  destruct (Qcompare_spec (y - inject_Z (Qfloor y)) (1 # 2)) as [H|H|H].
  - destruct (Z.even (Qfloor y)); [|rewrite inject_Z_plus; change (inject_Z 1) with 1]; lra.
  - lra.
  - rewrite inject_Z_plus; change (inject_Z 1) with 1; lra.
Qed.

Lemma round_even_Z (z : Z) : round_even (inject_Z z) = z.
Proof.
  unfold round_even. rewrite Qfloor_Z.
  destruct (Qcompare_spec (inject_Z z - inject_Z z) (1 # 2)) as [H|H|H]; [lra| reflexivity | lra].
Qed.

Lemma round_even_comp (x y : Q) : x == y -> round_even x = round_even y.
Proof.
  intros H. unfold round_even. rewrite (Qfloor_comp _ _ H).
  now rewrite H.
Qed.

Lemma round_even_nonneg (y : Q) : 0 <= y -> (0 <= round_even y)%Z.
Proof.
  intros Hy. unfold round_even.
  assert (0 <= Qfloor y)%Z.
  { change 0%Z with (Qfloor 0). now apply Qfloor_resp_le. }
  destruct (Qcompare _ _); [destruct (Z.even _)| |]; lia.
Qed.

(** *** Rounding to a format *)

Lemma round_magnitude_eq (fmt : format) (a : Q) :
  round_magnitude fmt a
  == inject_Z (round_even (a / pow2 (quantum fmt a))) * pow2 (quantum fmt a).
Proof. unfold round_magnitude. apply Qred_correct. Qed.

Lemma round_magnitude_nonneg (fmt : format) (a : Q) :
  0 <= a -> 0 <= round_magnitude fmt a.
Proof.
  intros Ha. rewrite round_magnitude_eq.
  apply Qmult_le_0_compat; [|apply Qlt_le_weak, pow2_pos].
  change 0 with (inject_Z 0). rewrite <- Zle_Qle.
  apply round_even_nonneg. apply Qle_shift_div_l; [apply pow2_pos|]. lra.
Qed.

(** The result is within half a spacing of the exact value. *)
Lemma round_magnitude_close (fmt : format) (a : Q) :
  Qabs (round_magnitude fmt a - a) <= pow2 (quantum fmt a - 1).
Proof.
  rewrite round_magnitude_eq. set (q := quantum fmt a).
  pose proof (round_even_close (a / pow2 q)) as H.
  pose proof (pow2_pos q) as Hq.
  assert (Heq : inject_Z (round_even (a / pow2 q)) * pow2 q - a
                == (inject_Z (round_even (a / pow2 q)) - a / pow2 q) * pow2 q).
  { field. lra. }
  rewrite Heq, Qabs_Qmult, (Qabs_pos (pow2 q)) by lra.
  apply Qle_trans with ((1 # 2) * pow2 q).
  - apply Qmult_le_compat_r; [exact H | lra].
  - rewrite pow2_pred. apply Qle_shift_div_l; [reflexivity|].
    rewrite <- Qmult_assoc, (Qmult_comm _ 2), Qmult_assoc.
    change ((1 # 2) * 2) with (2 # 2). setoid_replace (2 # 2) with 1 by reflexivity.
    rewrite Qmult_1_l. apply Qle_refl.
Qed.

(** In the normal range the spacing is relative to the value. *)
Lemma quantum_normal (fmt : format) (a : Q) :
  pow2 (emin fmt + precision fmt - 1) <= a ->
  pow2 (quantum fmt a - 1) <= a * pow2 (- precision fmt).
Proof.
  intros Ha.
  assert (Hpos : 0 < a) by (eapply Qlt_le_trans; [apply pow2_pos | exact Ha]).
  destruct (ilog2_spec a Hpos) as [H1 H2].
  assert (He : (emin fmt + precision fmt - 1 <= ilog2 a)%Z).
  { assert (emin fmt + precision fmt - 1 < ilog2 a + 1)%Z; [|lia].
    apply pow2_lt_inv. eapply Qle_lt_trans; eassumption. }
  unfold quantum. rewrite Z.max_l by lia.
  replace (ilog2 a - (precision fmt - 1) - 1)%Z with (ilog2 a + - precision fmt)%Z by lia.
  rewrite pow2_add. apply Qmult_le_compat_r; [assumption|].
  apply Qlt_le_weak, pow2_pos.
Qed.

Lemma quantum_subnormal (fmt : format) (a : Q) :
  a < pow2 (emin fmt + precision fmt - 1) -> 0 < a ->
  quantum fmt a = emin fmt.
Proof.
  intros Ha Hpos.
  destruct (ilog2_spec a Hpos) as [H1 H2].
  assert (ilog2 a < emin fmt + precision fmt - 1)%Z.
  { apply pow2_lt_inv. eapply Qle_lt_trans; eassumption. }
  unfold quantum. lia.
Qed.

Lemma round_magnitude_comp (fmt : format) (a b : Q) :
  0 < a -> a == b -> round_magnitude fmt a = round_magnitude fmt b.
Proof.
  intros Ha Hab.
  assert (Hb : 0 < b) by now rewrite <- Hab.
  destruct (ilog2_spec a Ha) as [H1 H2].
  assert (He : ilog2 b = ilog2 a).
  { apply ilog2_unique; now rewrite <- Hab. }
  unfold round_magnitude, quantum. rewrite He.
  apply Qred_complete.
  set (q := Z.max _ _).
  rewrite (round_even_comp (a / pow2 q) (b / pow2 q)); [reflexivity|].
  now rewrite Hab.
Qed.

Lemma round_magnitude_zero (fmt : format) (a : Q) :
  a == 0 -> round_magnitude fmt a = 0.
Proof.
  intros Ha. unfold round_magnitude.
  change 0 with (Qred 0). apply Qred_complete.
  generalize (pow2 (quantum fmt a)). intros p.
  rewrite (round_even_comp _ (inject_Z 0)).
  - rewrite round_even_Z. ring.
  - rewrite Ha. unfold Qdiv. ring.
Qed.

(** A multiple [k * 2 ^ z] of a power of two that has no more bits than
    the significand, and is not finer than the format, is a value of the
    format: rounding returns it. *)
Lemma round_magnitude_exact (fmt : format) (a : Q) (k z : Z) :
  a == inject_Z k * pow2 z ->
  (0 <= k < 2 ^ precision fmt)%Z ->
  (0 < precision fmt)%Z ->
  (emin fmt <= z)%Z ->
  round_magnitude fmt a == a.
Proof.
  intros Ha Hk Hp Hz.
  destruct (Z.eq_dec k 0) as [->|Hk0].
  { rewrite round_magnitude_zero; rewrite Ha; ring. }
  assert (Hkpos : 0 < inject_Z k).
  { change 0 with (inject_Z 0). rewrite <- Zlt_Qlt. lia. }
  assert (Hpos : 0 < a).
  { rewrite Ha. apply Qmult_lt_0_compat; [assumption | apply pow2_pos]. }
  destruct (ilog2_spec a Hpos) as [H1 H2].
  assert (Hq : (quantum fmt a <= z)%Z).
  { assert (ilog2 a < precision fmt + z)%Z.
    { apply pow2_lt_inv. eapply Qle_lt_trans; [exact H1|].
      rewrite Ha, pow2_add. apply Qmult_lt_compat_r; [apply pow2_pos|].
      rewrite pow2_Z by lia. rewrite <- Zlt_Qlt. lia. }
    unfold quantum. lia. }
  rewrite round_magnitude_eq. set (q := quantum fmt a) in *.
  assert (Hint : a / pow2 q == inject_Z (k * 2 ^ (z - q))).
  { rewrite Ha, inject_Z_mult, <- pow2_Z by lia. rewrite pow2_sub.
    field. pose proof (pow2_pos q). lra. }
  rewrite (round_even_comp _ _ Hint), round_even_Z.
  rewrite Ha, inject_Z_mult, <- pow2_Z by lia. rewrite pow2_sub.
  field. pose proof (pow2_pos q). lra.
Qed.

(** The values of the format are multiples of its least positive value. *)
Lemma round_magnitude_grid (fmt : format) (a : Q) :
  0 <= a ->
  exists k : Z, (0 <= k)%Z /\ round_magnitude fmt a == inject_Z k * pow2 (emin fmt).
Proof.
  intros Ha. set (q := quantum fmt a).
  exists (round_even (a / pow2 q) * 2 ^ (q - emin fmt))%Z.
  assert (Hq : (emin fmt <= q)%Z) by (unfold q, quantum; lia).
  assert (Hm : (0 <= round_even (a / pow2 q))%Z).
  { apply round_even_nonneg. apply Qle_shift_div_l; [apply pow2_pos | lra]. }
  split; [apply Z.mul_nonneg_nonneg; [assumption | apply Z.pow_nonneg; lia]|].
  rewrite round_magnitude_eq. fold q.
  rewrite inject_Z_mult, <- pow2_Z by lia. rewrite pow2_sub.
  field. pose proof (pow2_pos (emin fmt)). lra.
Qed.

(** Relative error in the normal range. *)
Lemma round_magnitude_relative (fmt : format) (a : Q) :
  pow2 (emin fmt + precision fmt - 1) <= a ->
  Qabs (round_magnitude fmt a - a) <= a * pow2 (- precision fmt).
Proof.
  intros Ha. eapply Qle_trans; [apply round_magnitude_close|].
  now apply quantum_normal.
Qed.

(** Absolute error below the normal range. *)
Lemma round_magnitude_absolute (fmt : format) (a : Q) :
  0 <= a -> a < pow2 (emin fmt + precision fmt - 1) ->
  Qabs (round_magnitude fmt a - a) <= pow2 (emin fmt - 1).
Proof.
  intros Ha Hsub.
  destruct (Qlt_le_dec 0 a) as [Hpos|Hzero].
  - eapply Qle_trans; [apply round_magnitude_close|].
    rewrite quantum_subnormal by assumption. apply Qle_refl.
  - assert (H0 : a == 0) by lra.
    rewrite round_magnitude_zero by assumption. rewrite H0.
    apply Qlt_le_weak, pow2_pos.
Qed.

(** Below the normal range, the multiples of the least positive value are
    values of the format. *)
Lemma round_magnitude_exact_subnormal (fmt : format) (a : Q) (k : Z) :
  a == inject_Z k * pow2 (emin fmt) ->
  (0 <= k)%Z -> (0 < precision fmt)%Z ->
  a < pow2 (emin fmt + precision fmt - 1) ->
  round_magnitude fmt a == a.
Proof.
  intros Ha Hk Hp Hsub.
  apply (round_magnitude_exact fmt a k (emin fmt)); try assumption; try lia.
  split; [assumption|].
  rewrite Zlt_Qlt, <- pow2_Z by lia.
  apply Qmult_lt_r with (pow2 (emin fmt)); [apply pow2_pos|].
  rewrite <- Ha, <- pow2_add.
  eapply Qlt_le_trans; [exact Hsub|]. apply pow2_le. lia.
Qed.

(** *** Results that do not overflow *)

Lemma round_to_cases (fmt : format) (s : bool) (a : Q) :
  round_to fmt s a = Infinity s
  \/ round_to fmt s a = Finite s (round_magnitude fmt a).
Proof.
  unfold round_to. destruct (Qle_bool _ _); auto.
Qed.

Lemma pow2_m53 : pow2 (-53) == 1 # 9007199254740992.
Proof. reflexivity. Qed.

Lemma round64_finite (s : bool) (a : Q) :
  0 <= a -> a <= pow2 1000 ->
  round_to binary64 s a = Finite s (round_magnitude binary64 a).
Proof.
  intros H0 Ha. unfold round_to.
  assert (Hlt : round_magnitude binary64 a < pow2 (emax binary64)).
  { assert (Herr : Qabs (round_magnitude binary64 a - a) <= pow2 1000).
    { destruct (Qlt_le_dec a (pow2 (-1022))) as [Hs|Hn].
      - eapply Qle_trans; [apply round_magnitude_absolute; assumption|].
        apply pow2_le. simpl. lia.
      - eapply Qle_trans; [apply round_magnitude_relative; assumption|].
        change (precision binary64) with 53%Z. rewrite pow2_m53.
        pose proof (pow2_pos 1000). lra. }
    apply Qabs_Qle_condition in Herr.
    apply Qle_lt_trans with (2 * pow2 1000); [lra|].
    rewrite <- pow2_succ. apply pow2_lt. simpl. lia. }
  destruct (Qle_bool (pow2 (emax binary64)) (round_magnitude binary64 a)) eqn:Hc;
    [|reflexivity].
  apply Qle_bool_iff in Hc. lra.
Qed.

Lemma round_magnitude_is (fmt : format) (a b : Q) :
  round_magnitude fmt a == b -> round_magnitude fmt a = Qred b.
Proof.
  intros H. unfold round_magnitude in *. apply Qred_complete.
  now rewrite Qred_correct in H.
Qed.

Lemma Qred_inject_Z (z : Z) : Qred (inject_Z z) = inject_Z z.
Proof.
  unfold Qred, inject_Z.
  pose proof (Z.ggcd_gcd z 1) as Hg.
  pose proof (Z.ggcd_correct_divisors z 1) as Hd.
  destruct (Z.ggcd z 1) as [g [aa bb]]. simpl in Hg, Hd.
  rewrite Z.gcd_1_r in Hg. subst g. destruct Hd as [Ha Hb].
  rewrite Z.mul_1_l in Ha, Hb. now subst.
Qed.

(** Integers below [2 ^ 53] are numbers. *)
Lemma round64_integer (s : bool) (a : Q) (z : Z) :
  a == inject_Z z -> (0 <= z < 2 ^ 53)%Z ->
  round_to binary64 s a = Finite s (inject_Z z).
Proof.
  intros Ha Hz.
  assert (Hexact : round_magnitude binary64 a == a).
  { apply (round_magnitude_exact binary64 a z 0); simpl; try lia.
    rewrite Ha. change (pow2 0) with 1. ring. }
  rewrite round64_finite.
  - f_equal. rewrite <- Qred_inject_Z. apply round_magnitude_is.
    now rewrite Hexact.
  - rewrite Ha. change 0 with (inject_Z 0). rewrite <- Zle_Qle. lia.
  - rewrite Ha. apply Qle_trans with (pow2 53).
    + rewrite pow2_Z by lia. rewrite <- Zle_Qle. lia.
    + apply pow2_le. lia.
Qed.

Lemma of_Z_exact (z : Z) : (0 <= z < 2 ^ 53)%Z -> of_Z z = Finite false (inject_Z z).
Proof.
  intros Hz. unfold of_Z, of_Q.
  assert (Qnegative (inject_Z z) = false) as ->.
  { apply CaptureFacts.Qltb_ge. change 0 with (inject_Z 0). rewrite <- Zle_Qle. lia. }
  apply round64_integer; [|assumption].
  apply Qabs_pos. change 0 with (inject_Z 0). rewrite <- Zle_Qle. lia.
Qed.

Lemma of_nat_exact (n : nat) :
  (Z.of_nat n < 2 ^ 53)%Z -> of_nat n = Finite false (inject_Z (Z.of_nat n)).
Proof. intros H. apply of_Z_exact. lia. Qed.

Lemma Qzero_true (q : Q) : Qzero q = true <-> q == 0.
Proof. apply Qeq_bool_iff. Qed.

Lemma Qzero_false (q : Q) : Qzero q = false <-> ~ q == 0.
Proof. unfold Qzero. rewrite <- not_true_iff_false, Qeq_bool_iff. tauto. Qed.

Lemma inject_Z_nonneg (z : Z) : (0 <= z)%Z -> 0 <= inject_Z z.
Proof. intros. change 0 with (inject_Z 0). now rewrite <- Zle_Qle. Qed.

Lemma inject_Z_pos (z : Z) : (0 < z)%Z -> 0 < inject_Z z.
Proof. intros. change 0 with (inject_Z 0). now rewrite <- Zlt_Qlt. Qed.

(** *** Arithmetic on small non-negative integers is exact *)

Lemma add_integers (a b : Z) :
  (0 <= a)%Z -> (0 <= b)%Z -> (a + b < 2 ^ 53)%Z ->
  add (Finite false (inject_Z a)) (Finite false (inject_Z b))
  = Finite false (inject_Z (a + b)).
Proof.
  intros Ha Hb Hab. unfold add, signed.
  assert (Hsum : inject_Z a + inject_Z b == inject_Z (a + b)) by (now rewrite inject_Z_plus).
  destruct (Qzero (inject_Z a + inject_Z b)) eqn:Hz.
  - apply Qzero_true in Hz. rewrite Hsum in Hz.
    apply (inject_Z_injective (a + b) 0) in Hz. now rewrite Hz.
  - assert (Qnegative (inject_Z a + inject_Z b) = false) as ->.
    { apply CaptureFacts.Qltb_ge. rewrite Hsum. apply inject_Z_nonneg. lia. }
    apply round64_integer; [|lia].
    rewrite Qabs_pos; [exact Hsum|]. rewrite Hsum. apply inject_Z_nonneg. lia.
Qed.

Lemma sub_integers (a b : Z) :
  (0 <= b <= a)%Z -> (a < 2 ^ 53)%Z ->
  sub (Finite false (inject_Z a)) (Finite false (inject_Z b))
  = Finite false (inject_Z (a - b)).
Proof.
  intros Hb Ha. unfold sub, neg, add, signed. cbn [negb andb].
  assert (Hdiff : inject_Z a + - inject_Z b == inject_Z (a - b)).
  { unfold Z.sub. now rewrite inject_Z_plus, inject_Z_opp. }
  destruct (Qzero (inject_Z a + - inject_Z b)) eqn:Hz.
  - apply Qzero_true in Hz. rewrite Hdiff in Hz.
    apply (inject_Z_injective (a - b) 0) in Hz. now rewrite Hz.
  - assert (Qnegative (inject_Z a + - inject_Z b) = false) as ->.
    { apply CaptureFacts.Qltb_ge. rewrite Hdiff. apply inject_Z_nonneg. lia. }
    apply round64_integer; [|lia].
    rewrite Qabs_pos; [exact Hdiff|]. rewrite Hdiff. apply inject_Z_nonneg. lia.
Qed.

Lemma Math_min_integers (a b : Z) :
  Math_min (Finite false (inject_Z a)) (Finite false (inject_Z b))
  = Finite false (inject_Z (Z.min a b)).
Proof.
  unfold Math_min, less_than, signed, is_negative.
  destruct (Qltb (inject_Z b) (inject_Z a)) eqn:H1.
  - apply CaptureFacts.Qltb_lt in H1. rewrite <- Zlt_Qlt in H1. now rewrite Z.min_r by lia.
  - apply CaptureFacts.Qltb_ge in H1. rewrite <- Zle_Qle in H1.
    destruct (Qltb (inject_Z a) (inject_Z b)) eqn:H2.
    + now rewrite Z.min_l by lia.
    + apply CaptureFacts.Qltb_ge in H2. rewrite <- Zle_Qle in H2.
      now rewrite Z.min_r by lia.
Qed.

Lemma Math_floor_nonneg (x : Q) :
  0 <= x -> Math_floor (Finite false x) = Finite false (inject_Z (Qfloor x))
            /\ (0 <= Qfloor x)%Z.
Proof.
  intros Hx. unfold Math_floor, signed.
  assert (0 <= Qfloor x)%Z.
  { change 0%Z with (Qfloor 0). now apply Qfloor_resp_le. }
  now rewrite Z.abs_eq.
Qed.

Lemma Math_round_nonneg (x : Q) :
  0 <= x ->
  Math_round (Finite false x) = Finite false (inject_Z (Qfloor (x + (1 # 2))))
  /\ (0 <= Qfloor (x + (1 # 2)))%Z.
Proof.
  intros Hx. unfold Math_round, signed.
  assert (0 <= Qfloor (x + (1 # 2)))%Z.
  { change 0%Z with (Qfloor 0). apply Qfloor_resp_le. lra. }
  now rewrite Z.abs_eq.
Qed.

Lemma array_index_of_integer (z : Z) :
  (0 <= z)%Z -> array_index (Finite false (inject_Z z)) = Some (Z.to_nat z).
Proof.
  intros Hz. unfold array_index. rewrite Qfloor_Z.
  destruct (Qzero (inject_Z z)) eqn:H0.
  - apply Qzero_true in H0. apply (inject_Z_injective z 0) in H0. now subst.
  - cbn [negb andb].
    assert (Qeq_bool (inject_Z z) (inject_Z z) = true) as -> by (apply Qeq_bool_iff; reflexivity).
    reflexivity.
Qed.

Lemma ToIndex_integer (z : Z) :
  (0 <= z)%Z ->
  ToIndex (Finite false (inject_Z z)) = if (2 ^ 53 - 1 <? z)%Z then None else Some z.
Proof.
  intros Hz. unfold ToIndex, truncate. rewrite Qfloor_Z.
  destruct (Z.ltb_spec z 0); [lia|]. reflexivity.
Qed.

(** *** Filling a [Float32Array] *)

Lemma typed_array_set_length (arr : list number) (i : nat) (v : number) :
  List.length (array_set arr i v) = List.length arr.
Proof.
  revert i. induction arr as [|a arr IH]; intros [|i]; simpl; auto.
Qed.

Lemma nth_error_typed_array_set (arr : list number) (i j : nat) (v : number) :
  nth_error (array_set arr i v) j =
    if (i =? j)%nat && (i <? List.length arr)%nat then Some (fround v)
    else nth_error arr j.
Proof.
  revert i j. induction arr as [|a arr IH]; intros [|i] [|j]; simpl;
    rewrite ?andb_false_r; auto.
Qed.

(** Filling an array front to back, as the [for] loop does. *)
Lemma typed_fill_spec (f : nat -> number) (k : nat) :
  forall (a : nat) (arr : list number),
    (a + k <= List.length arr)%nat ->
    List.length (fold_left (fun o i => array_set o i (f i)) (seq a k) arr) = List.length arr
    /\ forall j,
        nth_error (fold_left (fun o i => array_set o i (f i)) (seq a k) arr) j =
          if (a <=? j)%nat && (j <? a + k)%nat then Some (fround (f j))
          else nth_error arr j.
Proof.
  induction k as [|k IH]; intros a arr Hlen; simpl.
  - split; auto. intros j.
    destruct (Nat.leb_spec a j), (Nat.ltb_spec j (a + 0)); simpl; auto; lia.
  - destruct (IH (S a) (array_set arr a (f a))) as [Hl Hn].
    { rewrite typed_array_set_length. lia. }
    rewrite Hl, typed_array_set_length. split; auto.
    intros j. rewrite Hn, nth_error_typed_array_set.
    destruct (Nat.leb_spec (S a) j), (Nat.ltb_spec j (S a + k)),
             (Nat.leb_spec a j), (Nat.ltb_spec j (a + S k)),
             (Nat.eqb_spec a j), (Nat.ltb_spec a (List.length arr));
      simpl; auto; try lia; subst; auto.
Qed.

Lemma typed_fill_all (f : nat -> number) (arr : list number) :
  fold_left (fun o i => array_set o i (f i)) (seq 0 (List.length arr)) arr
  = map (fun i => fround (f i)) (seq 0 (List.length arr)).
Proof.
  destruct (typed_fill_spec f (List.length arr) 0 arr (le_n _)) as [Hl Hn].
  apply nth_error_ext. intros j. rewrite Hn. simpl.
  destruct (Nat.ltb_spec j (List.length arr)) as [Hj|Hj].
  - rewrite nth_error_map, nth_error_seq.
    destruct (Nat.ltb_spec j (List.length arr)); [reflexivity|lia].
  - rewrite (proj2 (nth_error_None arr j) Hj).
    symmetry. apply nth_error_None. rewrite length_map, length_seq. lia.
Qed.

End Ieee754Facts.

(** ** The index [i * step] stays below the input length *)

Module ResampleBounds.

Import Ieee754 Ieee754Facts.
Local Open Scope Q_scope.

Local Abbreviation rm := (round_magnitude binary64).
Local Abbreviation eps := (1 # 9007199254740992).

Lemma rm_relative (a : Q) :
  pow2 (-1022) <= a -> - (eps * a) <= rm a - a <= eps * a.
Proof.
  intros Ha. apply Qabs_Qle_condition.
  eapply Qle_trans; [apply round_magnitude_relative; exact Ha|].
  change (precision binary64) with 53%Z. rewrite pow2_m53. lra.
Qed.

Lemma rm_absolute (a : Q) :
  0 <= a -> a < pow2 (-1022) -> rm a <= a + (1 # 8).
Proof.
  intros H0 Ha.
  pose proof (round_magnitude_absolute binary64 a H0 Ha) as H.
  apply Qabs_Qle_condition in H.
  assert (pow2 (emin binary64 - 1) <= pow2 (-3)) by (apply pow2_le; simpl; lia).
  change (pow2 (-3)) with (1 # 8) in *. lra.
Qed.

(** The quantities of one call at positive rates [s] (source) and [d]
    (target), for an input of [L] samples: [a] is [L * d] as computed,
    [u] is [a / s] as computed, [N = round u] is the output length, [st]
    is the step [s / d] as computed, and [idx] is [i * st] as computed,
    for an output index [i < N]; [M] is the longest typed array.  Each of
    the four results is within a relative error of [2 ^ -53] of its exact
    value: the product because a multiple of a number by an integer is
    exact below the normal range, the other three because they are in the
    normal range when [1 <= N <= M].  As [i <= N - 1 <= u - 1/2], the
    product [i * st] is below [L] by about [s / (2 * d)], which is far
    more than the accumulated error as long as [M <= 2 ^ 48]. *)
Section Bound.

Variables (L M N i : Z) (s d : Q).
Hypothesis HL : (1 <= L)%Z.
Hypothesis HM : (M <= 2 ^ 48)%Z.
Hypothesis Hs : 0 < s.
Hypothesis Hd : 0 < d.
Hypothesis Hrep : rm d == d.

Let a := rm (inject_Z L * d).
Let u := rm (a / s).
Let st := rm (s / d).
Let idx := rm (inject_Z i * st).

Hypothesis HN : N = Qfloor (u + (1 # 2)).
Hypothesis Hi : (0 <= i < N)%Z.
Hypothesis HNM : (N <= M)%Z.

Lemma product_error : - (eps * (inject_Z L * d)) <= a - inject_Z L * d <= eps * (inject_Z L * d).
Proof.
  assert (HLq : 1 <= inject_Z L) by (change 1 with (inject_Z 1); rewrite <- Zle_Qle; lia).
  assert (Hpos : 0 < inject_Z L * d) by nra.
  destruct (Qlt_le_dec (inject_Z L * d) (pow2 (-1022))) as [Hsub|Hnorm].
  - destruct (round_magnitude_grid binary64 d (Qlt_le_weak _ _ Hd)) as (k & Hk & Hgrid).
    rewrite Hrep in Hgrid.
    assert (Hex : a == inject_Z L * d).
    { apply (round_magnitude_exact_subnormal binary64 _ (L * k)); simpl; try lia.
      - rewrite Hgrid, inject_Z_mult. change (emin binary64) with (-1074)%Z. generalize (pow2 (-1074)). intros g. ring.
      - exact Hsub. }
    rewrite Hex. split; nra.
  - unfold a. apply rm_relative. exact Hnorm.
Qed.

Lemma requested_at_least_half : 1 # 2 <= u.
Proof.
  pose proof (Qfloor_le (u + (1 # 2))) as H. rewrite <- HN in H.
  assert (1 <= inject_Z N) by (change 1 with (inject_Z 1); rewrite <- Zle_Qle; lia).
  lra.
Qed.

Lemma requested_below_limit : u < inject_Z M + (1 # 2).
Proof.
  pose proof (Qlt_floor (u + (1 # 2))) as H. rewrite <- HN in H.
  rewrite inject_Z_plus in H. change (inject_Z 1) with 1 in H.
  assert (inject_Z N <= inject_Z M) by (rewrite <- Zle_Qle; lia).
  lra.
Qed.

Lemma index_at_most : inject_Z i <= u - (1 # 2).
Proof.
  pose proof (Qfloor_le (u + (1 # 2))) as H. rewrite <- HN in H.
  assert (inject_Z i + 1 <= inject_Z N).
  { change 1 with (inject_Z 1). rewrite <- inject_Z_plus, <- Zle_Qle. lia. }
  lra.
Qed.

Lemma quotient_error : - (eps * a) <= u * s - a <= eps * a.
Proof.
  pose proof product_error as Hp. pose proof requested_at_least_half as Hu.
  assert (HLq : 1 <= inject_Z L) by (change 1 with (inject_Z 1); rewrite <- Zle_Qle; lia).
  assert (Hpos : 0 < inject_Z L * d) by nra.
  assert (Ha : 0 < a) by lra.
  assert (Ht : a / s * s == a) by (field; lra).
  assert (Ht0 : 0 <= a / s) by (apply Qle_shift_div_l; lra).
  assert (Hnorm : pow2 (-1022) <= a / s).
  { destruct (Qlt_le_dec (a / s) (pow2 (-1022))) as [Hsub|Hn]; [|exact Hn].
    pose proof (rm_absolute (a / s) Ht0 Hsub) as Habs. fold u in Habs.
    assert (pow2 (-1022) <= pow2 (-3)) by (apply pow2_le; lia).
    change (pow2 (-3)) with (1 # 8) in *. lra. }
  pose proof (rm_relative (a / s) Hnorm) as Hrel. fold u in Hrel.
  revert Ht Hrel. generalize (a / s). intros t Ht Hrel.
  split; nra.
Qed.

Hypothesis HL53 : (L < 2 ^ 53)%Z.

Lemma rates_ratio_bounds :
  (1 # 1125899906842624) * d <= s /\ s <= inject_Z (2 ^ 55) * d.
Proof.
  pose proof product_error as Hp. pose proof quotient_error as Hq.
  pose proof requested_at_least_half as Hu. pose proof requested_below_limit as Hm.
  assert (HLq : 1 <= inject_Z L) by (change 1 with (inject_Z 1); rewrite <- Zle_Qle; lia).
  assert (HLq' : inject_Z L <= inject_Z (2 ^ 53)) by (rewrite <- Zle_Qle; lia).
  assert (HMq : inject_Z M <= inject_Z (2 ^ 48)) by (rewrite <- Zle_Qle; lia).
  change (inject_Z (2 ^ 53)) with 9007199254740992 in HLq'.
  change (inject_Z (2 ^ 48)) with 281474976710656 in HMq.
  change (inject_Z (2 ^ 55)) with 36028797018963968.
  assert (Hus1 : u * s <= inject_Z M * s + (1 # 2) * s) by nra.
  assert (Hus2 : (1 # 2) * s <= u * s) by nra.
  assert (HMs : inject_Z M * s <= 281474976710656 * s) by nra.
  assert (HLd1 : d <= inject_Z L * d) by nra.
  assert (HLd2 : inject_Z L * d <= 9007199254740992 * d) by nra.
  revert Hp Hq Hus1 Hus2 HMs HLd1 HLd2.
  generalize (u * s) (inject_Z L * d) (inject_Z M * s). intros US P MS. intros.
  split; lra.
Qed.

Lemma step_error : - (eps * s) <= st * d - s <= eps * s.
Proof.
  destruct rates_ratio_bounds as [Hlo _].
  assert (Ht : s / d * d == s) by (field; lra).
  assert (Hnorm : pow2 (-1022) <= s / d).
  { apply Qle_trans with (pow2 (-50)); [apply pow2_le; lia|].
    apply Qle_shift_div_l; [assumption|].
    change (pow2 (-50)) with (1 # 1125899906842624). exact Hlo. }
  pose proof (rm_relative (s / d) Hnorm) as Hrel. fold st in Hrel.
  revert Ht Hrel. generalize (s / d). intros t Ht Hrel.
  split; nra.
Qed.

Lemma step_is_finite : 0 <= s / d /\ s / d <= pow2 1000.
Proof.
  destruct rates_ratio_bounds as [_ Hhi].
  split.
  - apply Qle_shift_div_l; lra.
  - apply Qle_trans with (pow2 55); [|apply pow2_le; lia].
    apply Qle_shift_div_r; [assumption|].
    rewrite pow2_Z by lia. exact Hhi.
Qed.

Lemma index_error :
  0 <= inject_Z i * st
  /\ inject_Z i * st <= pow2 1000
  /\ idx <= (1 + eps) * (inject_Z i * st).
Proof.
  destruct rates_ratio_bounds as [Hlo Hhi].
  pose proof step_error as Hst.
  assert (Hiq : 0 <= inject_Z i) by (change 0 with (inject_Z 0); rewrite <- Zle_Qle; lia).
  assert (Hi48 : inject_Z i <= inject_Z (2 ^ 48)) by (rewrite <- Zle_Qle; lia).
  change (inject_Z (2 ^ 48)) with 281474976710656 in Hi48.
  change (inject_Z (2 ^ 55)) with 36028797018963968 in Hhi.
  assert (Hst0 : 0 <= st).
  { apply round_magnitude_nonneg. apply Qle_shift_div_l; lra. }
  assert (Hstd1 : (1 # 2251799813685248) * d <= st * d) by lra.
  assert (Hstd2 : st * d <= 72057594037927936 * d) by lra.
  assert (Hst1 : 1 # 2251799813685248 <= st) by nra.
  assert (Hst2 : st <= 72057594037927936) by nra.
  assert (Hprod0 : 0 <= inject_Z i * st) by nra.
  assert (Hprod1 : inject_Z i * st <= pow2 1000).
  { apply Qle_trans with (pow2 104); [|apply pow2_le; lia].
    rewrite pow2_Z by lia.
    change (inject_Z (2 ^ 104)) with (281474976710656 * 72057594037927936).
    nra. }
  repeat split; try assumption.
  destruct (Z.eq_dec i 0) as [Hi0|Hi0].
  - unfold idx. rewrite round_magnitude_zero.
    + subst i. lra.
    + subst i. ring.
  - assert (Hi1 : 1 <= inject_Z i) by (change 1 with (inject_Z 1); rewrite <- Zle_Qle; lia).
    assert (Hnorm : pow2 (-1022) <= inject_Z i * st).
    { apply Qle_trans with (pow2 (-51)); [apply pow2_le; lia|].
      change (pow2 (-51)) with (1 # 2251799813685248). nra. }
    pose proof (rm_relative _ Hnorm) as Hrel. fold idx in Hrel. lra.
Qed.

(** The index of the first element read stays below the input length. *)
Lemma index_below_length : idx < inject_Z L.
Proof.
  pose proof product_error as Hp. pose proof quotient_error as Hq.
  pose proof step_error as Hst. pose proof index_at_most as Hi1.
  pose proof requested_below_limit as Hm.
  destruct index_error as (Hprod0 & _ & Hidx).
  assert (HLq : 1 <= inject_Z L) by (change 1 with (inject_Z 1); rewrite <- Zle_Qle; lia).
  assert (HMq : inject_Z M <= inject_Z (2 ^ 48)) by (rewrite <- Zle_Qle; lia).
  change (inject_Z (2 ^ 48)) with 281474976710656 in HMq.
  assert (Hiq : 0 <= inject_Z i) by (change 0 with (inject_Z 0); rewrite <- Zle_Qle; lia).
  assert (Hst0 : 0 <= st).
  { apply round_magnitude_nonneg. apply Qle_shift_div_l; lra. }
  assert (H1 : idx * d <= (1 + eps) * (inject_Z i * (st * d))) by nra.
  assert (H2 : inject_Z i * (st * d) <= (1 + eps) * (inject_Z i * s)) by nra.
  assert (H3 : inject_Z i * s <= u * s - (1 # 2) * s) by nra.
  assert (H4 : u * s <= inject_Z M * s + (1 # 2) * s) by nra.
  assert (H5 : inject_Z M * s <= 281474976710656 * s) by nra.
  assert (H6 : idx * d < inject_Z L * d).
  { revert Hp Hq H1 H2 H3 H4 H5.
    generalize (idx * d) (inject_Z i * (st * d)) (inject_Z i * s) (u * s)
               (inject_Z L * d) (inject_Z M * s).
    intros X ISD IS US P MS. intros. lra. }
  apply Qmult_lt_r with d; assumption.
Qed.

End Bound.

End ResampleBounds.

(** ** [resampleAudio] *)

Module CaptureIeeeFacts.

Import Ieee754 CaptureIeee Ieee754Facts ResampleBounds.
Local Open Scope Q_scope.

Local Abbreviation rm := (round_magnitude binary64).

Lemma mul_positive (x y : Q) :
  mul (Finite false x) (Finite false y) = Infinity false
  \/ mul (Finite false x) (Finite false y) = Finite false (rm (x * y)).
Proof. apply round_to_cases. Qed.

Lemma div_positive (x y : Q) :
  0 < y ->
  div (Finite false x) (Finite false y) = Infinity false
  \/ div (Finite false x) (Finite false y) = Finite false (rm (x / y)).
Proof.
  intros Hy. unfold div.
  assert (Qzero y = false) as -> by (apply Qzero_false; lra).
  apply round_to_cases.
Qed.

Lemma positive_binary64 (a : number) :
  is_positive_binary64 a = true ->
  exists x, a = Finite false x /\ 0 < x /\ rm x == x /\ x < pow2 1024.
Proof.
  destruct a as [ | | [|] x]; try discriminate. simpl.
  intros H. apply andb_prop in H as [H H3]. apply andb_prop in H as [H1 H2].
  exists x. repeat split.
  - now apply CaptureFacts.Qltb_lt.
  - now apply Qeq_bool_iff.
  - now apply CaptureFacts.Qltb_lt.
Qed.

(** The integer [round(len * dstRate / srcRate)] as binary64 evaluates it
    when nothing overflows. *)
Local Abbreviation requested_Z len s d :=
  (Qfloor (rm (rm (inject_Z (Z.of_nat len) * d) / s) + (1 # 2))).

Lemma inputLength_exact (len : nat) :
  (Z.of_nat len < 2 ^ 53)%Z -> of_nat len = Finite false (inject_Z (Z.of_nat len)).
Proof. apply of_nat_exact. Qed.

(** The length asked of [new Float32Array] is an integer or, on
    overflow, infinite. *)
Lemma requested_length_cases (len : nat) (s d : Q) :
  (Z.of_nat len < 2 ^ 53)%Z -> 0 < s -> 0 < d ->
  spec_output_length len (Finite false s) (Finite false d) = Infinity false
  \/ (spec_output_length len (Finite false s) (Finite false d)
      = Finite false (inject_Z (requested_Z len s d))
      /\ (0 <= requested_Z len s d)%Z).
Proof.
  intros Hlen Hs Hd.
  unfold spec_output_length. rewrite inputLength_exact by assumption.
  destruct (mul_positive (inject_Z (Z.of_nat len)) d) as [-> | ->]; [now left|].
  destruct (div_positive (rm (inject_Z (Z.of_nat len) * d)) s Hs) as [-> | ->];
    [now left|].
  right. apply Math_round_nonneg.
  apply round_magnitude_nonneg. apply Qle_shift_div_l; [assumption|].
  rewrite Qmult_0_l. apply round_magnitude_nonneg.
  apply Qmult_le_0_compat; [apply inject_Z_nonneg; lia | lra].
Qed.

Lemma empty_input_requests_nothing (s d : Q) : requested_Z 0 s d = 0%Z.
Proof.
  cbn [Z.of_nat].
  rewrite (round_magnitude_zero binary64 (inject_Z 0 * d)) by ring.
  rewrite (round_magnitude_zero binary64 (0 / s)) by (unfold Qdiv; ring).
  reflexivity.
Qed.

Lemma loop_runs_on_nonempty_input (len i : nat) (s d : Q) :
  (Z.of_nat i < requested_Z len s d)%Z -> (1 <= Z.of_nat len)%Z.
Proof.
  destruct len; [|lia].
  rewrite empty_input_requests_nothing. lia.
Qed.

Lemma ToNumber_of_nth_error (l : list number) (n : nat) :
  ToNumber (nth_error l n) = nth n l NaN.
Proof.
  revert n. induction l as [|a l IH]; intros [|n]; simpl; auto.
Qed.

Lemma array_get_integer (l : list number) (z : Z) :
  (0 <= z)%Z ->
  array_get l (Finite false (inject_Z z)) = nth_error l (Z.to_nat z).
Proof.
  intros Hz. unfold array_get. now rewrite array_index_of_integer.
Qed.

(** What one iteration computes, at positive rates and an output the
    engine can allocate: the product [i * step] is a number below the
    input length, and the two indices are the integers the specification
    names. *)
Lemma taps_in_bounds (max_length : Z) (len i : nat) (s d : Q) :
  (max_length <= 2 ^ 48)%Z ->
  (Z.of_nat len <= max_length)%Z ->
  0 < s -> 0 < d -> rm d == d ->
  (requested_Z len s d <= max_length)%Z ->
  (Z.of_nat i < requested_Z len s d)%Z ->
  exists idx : Q,
    mul (of_nat i) (div (Finite false s) (Finite false d)) = Finite false idx
    /\ (0 <= Qfloor idx < Z.of_nat len)%Z
    /\ resample_taps (of_nat len) (div (Finite false s) (Finite false d)) i
       = mkTaps (Finite false (inject_Z (Qfloor idx)))
                (Finite false (inject_Z (Z.min (Qfloor idx + 1) (Z.of_nat len - 1))))
                (sub (Finite false idx) (Finite false (inject_Z (Qfloor idx)))).
Proof.
  intros Hmax Hlen Hs Hd Hrep HNM Hi.
  pose proof (loop_runs_on_nonempty_input len i s d Hi) as HL.
  assert (HL53 : (Z.of_nat len < 2 ^ 53)%Z) by lia.
  assert (Hi' : (0 <= Z.of_nat i < requested_Z len s d)%Z) by lia.
  pose proof (step_is_finite _ _ _ _ s d HL Hmax Hs Hd Hrep eq_refl Hi' HNM HL53)
    as [Hst0 Hst1].
  pose proof (index_error _ _ _ _ s d HL Hmax Hs Hd Hrep eq_refl Hi' HNM HL53)
    as (Hp0 & Hp1 & _).
  pose proof (index_below_length _ _ _ _ s d HL Hmax Hs Hd Hrep eq_refl Hi' HNM HL53)
    as Hbelow.
  assert (Hstep : div (Finite false s) (Finite false d) = Finite false (rm (s / d))).
  { unfold div. assert (Qzero d = false) as -> by (apply Qzero_false; lra).
    now apply round64_finite. }
  set (idx := rm (inject_Z (Z.of_nat i) * rm (s / d))) in *.
  assert (Hidx : mul (of_nat i) (div (Finite false s) (Finite false d))
                 = Finite false idx).
  { rewrite Hstep, of_nat_exact by lia. unfold mul. cbn [xorb].
    now apply round64_finite. }
  assert (Hidx0 : 0 <= idx) by (apply round_magnitude_nonneg; assumption).
  destruct (Math_floor_nonneg idx Hidx0) as [Hfloor Hf0].
  assert (Hf1 : (Qfloor idx < Z.of_nat len)%Z).
  { rewrite Zlt_Qlt. eapply Qle_lt_trans; [apply Qfloor_le | exact Hbelow]. }
  exists idx. split; [exact Hidx|]. split; [lia|].
  unfold resample_taps. rewrite Hidx, Hfloor.
  rewrite (of_nat_exact len) by lia.
  rewrite (of_Z_exact 1) by lia.
  rewrite add_integers by lia.
  rewrite sub_integers by lia.
  now rewrite Math_min_integers.
Qed.

(** The sample an iteration stores, read off the input with integer
    indices. *)
Lemma resample_sample_in_bounds (max_length : Z) (input : list number) (i : nat) (s d : Q) :
  (max_length <= 2 ^ 48)%Z ->
  (Z.of_nat (List.length input) <= max_length)%Z ->
  0 < s -> 0 < d -> rm d == d ->
  (requested_Z (List.length input) s d <= max_length)%Z ->
  (Z.of_nat i < requested_Z (List.length input) s d)%Z ->
  fround (resample_sample input
            (resample_taps (of_nat (List.length input))
                           (div (Finite false s) (Finite false d)) i))
  = spec_interpolate input (Finite false s) (Finite false d) i.
Proof.
  intros Hmax Hlen Hs Hd Hrep HNM Hi.
  destruct (taps_in_bounds max_length _ i s d Hmax Hlen Hs Hd Hrep HNM Hi)
    as (idx & Hidx & [Hf0 Hf1] & Htaps).
  unfold spec_interpolate, resample_sample. rewrite Htaps, Hidx.
  cbn [index1 index2 fraction floor_Z signed].
  rewrite !array_get_integer, !ToNumber_of_nth_error by lia.
  rewrite (of_Z_exact (Qfloor idx)) by lia.
  reflexivity.
Qed.

Lemma max_length_exact (max_length : Z) (len : nat) :
  (max_length <= 2 ^ 48)%Z -> (Z.of_nat len <= max_length)%Z ->
  of_Z max_length = Finite false (inject_Z max_length).
Proof. intros. apply of_Z_exact. lia. Qed.

(** The allocation of the output, for a requested length that is an
    integer. *)
Lemma new_Float32Array_integer (max_length n : Z) :
  (max_length <= 2 ^ 48)%Z -> (0 <= n)%Z ->
  new_Float32Array max_length (Finite false (inject_Z n))
  = if (max_length <? n)%Z then Throw
    else Normal (repeat (Finite false 0) (Z.to_nat n)).
Proof.
  intros Hmax Hn. unfold new_Float32Array. rewrite ToIndex_integer by assumption.
  destruct (Z.ltb_spec (2 ^ 53 - 1) n) as [Hbig|Hsmall]; [|reflexivity].
  destruct (Z.ltb_spec max_length n); [reflexivity | lia].
Qed.

(** [resampleAudio] at positive rates: the loop that fills the output
    computes the samples of the reference definition. *)
Lemma resampleAudio_at_positive_magnitudes
    (max_length : Z) (input : list number) (s d : Q) :
  (max_length <= 2 ^ 48)%Z ->
  (Z.of_nat (List.length input) <= max_length)%Z ->
  0 < s -> 0 < d -> rm d == d ->
  resampleAudio max_length input (Finite false s) (Finite false d)
  = spec_resample max_length input (Finite false s) (Finite false d).
Proof.
  intros Hmax Hlen Hs Hd Hrep.
  unfold resampleAudio, spec_resample.
  destruct (strict_equal (Finite false s) (Finite false d)); [reflexivity|].
  fold (spec_output_length (List.length input) (Finite false s) (Finite false d)).
  rewrite (max_length_exact max_length (List.length input)) by assumption.
  destruct (requested_length_cases (List.length input) s d) as [-> | [-> HN0]];
    try assumption; try lia.
  - reflexivity.
  - rewrite new_Float32Array_integer by assumption.
    unfold less_than, signed. cbn [floor_Z signed]. rewrite Qfloor_Z.
    set (N := requested_Z (List.length input) s d) in *.
    destruct (Z.ltb_spec max_length N) as [Hbig|Hfits].
    + assert (Qltb (inject_Z max_length) (inject_Z N) = true) as ->; [|reflexivity].
      apply CaptureFacts.Qltb_lt. now rewrite <- Zlt_Qlt.
    + assert (Qltb (inject_Z max_length) (inject_Z N) = false) as ->.
      { apply CaptureFacts.Qltb_ge. now rewrite <- Zle_Qle. }
      f_equal.
      change (resample_body input (of_nat (List.length input))
                (div (Finite false s) (Finite false d)))
        with (fun o i =>
                array_set o i
                  (resample_sample input
                     (resample_taps (of_nat (List.length input))
                        (div (Finite false s) (Finite false d)) i))).
      rewrite typed_fill_all, repeat_length.
      apply map_ext_in. intros i Hi. apply in_seq in Hi.
      apply (resample_sample_in_bounds max_length); try assumption.
      fold N. lia.
Qed.

Lemma Normal_injective (A : Type) (a b : A) : Normal a = Normal b -> a = b.
Proof. congruence. Qed.

(** An empty input asks for an empty output. *)
Lemma spec_output_length_empty (s d : Q) :
  0 < s -> spec_output_length 0 (Finite false s) (Finite false d) = Finite false 0.
Proof.
  intros Hs. unfold spec_output_length.
  rewrite (of_nat_exact 0) by (simpl; lia). cbn [Z.of_nat].
  assert (Hmul : mul (Finite false (inject_Z 0)) (Finite false d)
                 = Finite false (inject_Z 0)).
  { unfold mul. apply round64_integer; [ring | lia]. }
  rewrite Hmul.
  assert (Hdiv : div (Finite false (inject_Z 0)) (Finite false s)
                 = Finite false (inject_Z 0)).
  { unfold div. assert (Qzero s = false) as -> by (apply Qzero_false; lra).
    apply round64_integer; [unfold Qdiv; ring | lia]. }
  rewrite Hdiv. reflexivity.
Qed.

(** The loop guard [i < outputLength] holds exactly at the indices of the
    array that [new Float32Array(outputLength)] returned. *)
Lemma guard_matches_allocated_length
    (max_length : Z) (r : number) (outputAudioData : list number) (i : nat) :
  new_Float32Array max_length (Math_round r) = Normal outputAudioData ->
  (i <= List.length outputAudioData)%nat ->
  less_than (of_nat i) (Math_round r) = (i <? List.length outputAudioData)%nat.
Proof.
  unfold new_Float32Array. intros Hnew Hi.
  destruct r as [ | sg | sg x]; cbn [Math_round] in *.
  - (* NaN *)
    cbn [ToIndex] in Hnew. destruct (max_length <? 0)%Z; [discriminate|].
    injection Hnew as <-. cbn [List.length] in *.
    assert (i = 0%nat) as -> by lia.
    rewrite (of_nat_exact 0) by (simpl; lia). reflexivity.
  - discriminate.
  - set (m := Z.abs (Qfloor (signed sg x + (1 # 2)))) in *.
    assert (Hm : (0 <= m)%Z) by apply Z.abs_nonneg.
    unfold ToIndex, truncate in Hnew. rewrite Qfloor_Z in Hnew.
    destruct sg.
    + destruct (Z.ltb_spec (- m) 0) as [Hneg|Hzero]; [discriminate|].
      assert (m = 0%Z) by lia.
      cbn [orb] in Hnew.
      destruct (2 ^ 53 - 1 <? - m)%Z; [discriminate|].
      destruct (max_length <? - m)%Z; [discriminate|].
      injection Hnew as <-. replace (- m)%Z with 0%Z in * by lia.
      cbn [Z.to_nat repeat List.length] in *.
      assert (i = 0%nat) as -> by lia.
      rewrite (of_nat_exact 0) by (simpl; lia).
      replace m with 0%Z by lia. reflexivity.
    + destruct (Z.ltb_spec m 0) as [Hneg|_]; [lia|]. cbn [orb] in Hnew.
      destruct (Z.ltb_spec (2 ^ 53 - 1) m) as [|Hm53]; [discriminate|].
      destruct (max_length <? m)%Z; [discriminate|].
      injection Hnew as <-. rewrite repeat_length in *.
      rewrite of_nat_exact by lia.
      unfold less_than, signed.
      destruct (Nat.ltb_spec i (Z.to_nat m)) as [Hlt|Hge].
      * apply CaptureFacts.Qltb_lt. rewrite <- Zlt_Qlt. lia.
      * apply CaptureFacts.Qltb_ge. rewrite <- Zle_Qle. lia.
Qed.

(** C8 (as amended).  When the two rates are equal [resampleAudio] returns
    its input unchanged.  Otherwise, for positive rates, it returns for
    every output index [i] the value [in[i0] + frac*(in[i1]-in[i0])] of
    the specification, with [step = srcRate/dstRate], [idx = i*step],
    [i0 = floor(idx)], [i1 = min(i0+1, len-1)], [frac = idx-i0], where
    every operation is the binary64 operation (its exact result rounded to
    the nearest number) and the sample is rounded once more, to binary32,
    when it is stored in the [Float32Array]; the output has
    [round(len*dstRate/srcRate)] samples, computed in binary64 too, and
    the call throws when that is more than a typed array can hold. *)
Theorem resampleAudio_rounds_the_reference
    (max_length : Z) (inputAudioData : list number)
    (inputSampleRate outputSampleRate : number) :
  (max_length <= 2 ^ 48)%Z ->
  (Z.of_nat (List.length inputAudioData) <= max_length)%Z ->
  is_positive_binary64 inputSampleRate = true ->
  is_positive_binary64 outputSampleRate = true ->
  resampleAudio max_length inputAudioData inputSampleRate outputSampleRate
  = spec_resample max_length inputAudioData inputSampleRate outputSampleRate.
Proof.
  intros Hmax Hlen Hsrc Hdst.
  apply positive_binary64 in Hsrc as (s & -> & Hs & _).
  apply positive_binary64 in Hdst as (d & -> & Hd & Hrep & _).
  now apply resampleAudio_at_positive_magnitudes.
Qed.

(** C9 (as amended).  For any input array and any positive rates,
    [resampleAudio] is total up to the allocation of its output, and it
    reads inside the input.  With equal rates it returns the input.
    Otherwise it throws exactly when [round(len*dstRate/srcRate)], as
    binary64 computes it, is more than the longest typed array the engine
    allocates (the [RangeError] of [new Float32Array]), and else returns
    an array of that length.  An empty input yields an empty output.  At
    every output index the two reads hit elements of the input: the first
    index [floor(i*step)] and the second index
    [min(floor(i*step)+1, len-1)] are integers from 0 to [len-1], and the
    sample stored is computed from the two elements found there. *)
Theorem resampleAudio_is_total_up_to_allocation
    (max_length : Z) (inputAudioData : list number)
    (inputSampleRate outputSampleRate : number) :
  (max_length <= 2 ^ 48)%Z ->
  (Z.of_nat (List.length inputAudioData) <= max_length)%Z ->
  is_positive_binary64 inputSampleRate = true ->
  is_positive_binary64 outputSampleRate = true ->
  let inputLength := of_nat (List.length inputAudioData) in
  let outputLength :=
    Math_round (div (mul inputLength outputSampleRate) inputSampleRate) in
  let step := div inputSampleRate outputSampleRate in
  let result :=
    resampleAudio max_length inputAudioData inputSampleRate outputSampleRate in
  (strict_equal inputSampleRate outputSampleRate = true ->
   result = Normal inputAudioData)
  /\ (result = Throw <->
      strict_equal inputSampleRate outputSampleRate = false
      /\ less_than (of_Z max_length) outputLength = true)
  /\ (inputAudioData = [] -> result = Normal [])
  /\ (forall outputAudioData,
        strict_equal inputSampleRate outputSampleRate = false ->
        result = Normal outputAudioData ->
        outputLength = of_nat (List.length outputAudioData)
        /\ forall i, (i < List.length outputAudioData)%nat ->
             exists n1 n2 x1 x2,
               array_index (index1 (resample_taps inputLength step i)) = Some n1
               /\ array_index (index2 (resample_taps inputLength step i)) = Some n2
               /\ n2 = Nat.min (n1 + 1) (List.length inputAudioData - 1)
               /\ nth_error inputAudioData n1 = Some x1
               /\ nth_error inputAudioData n2 = Some x2
               /\ nth_error outputAudioData i
                  = Some (fround (interpolate x1 x2
                                    (fraction (resample_taps inputLength step i))))).
Proof.
  intros Hmax Hlen Hsrc Hdst.
  apply positive_binary64 in Hsrc as (s & -> & Hs & _).
  apply positive_binary64 in Hdst as (d & -> & Hd & Hrep & _).
  cbv zeta.
  rewrite (resampleAudio_at_positive_magnitudes max_length inputAudioData s d)
    by assumption.
  unfold spec_resample.
  fold (spec_output_length (List.length inputAudioData) (Finite false s) (Finite false d)).
  set (n := spec_output_length _ _ _).
  split; [|split; [|split]].
  - intros ->. reflexivity.
  - destruct (strict_equal _ _), (less_than _ n); split; try discriminate; auto.
    + intros [H _]; discriminate.
    + intros [_ H]; discriminate.
    + intros [_ H]; discriminate.
  - intros ->. destruct (strict_equal _ _); [reflexivity|].
    unfold n. cbn [List.length]. rewrite spec_output_length_empty by assumption.
    rewrite of_Z_exact by (simpl in Hlen; lia).
    assert (less_than (Finite false (inject_Z max_length)) (Finite false 0) = false) as ->.
    { apply CaptureFacts.Qltb_ge. apply inject_Z_nonneg. simpl in Hlen. lia. }
    reflexivity.
  - intros out ->.
    rewrite (max_length_exact max_length (List.length inputAudioData)) by assumption.
    destruct (requested_length_cases (List.length inputAudioData) s d)
      as [Hn | [Hn HN0]]; try assumption; try lia; fold n in Hn; rewrite Hn.
    + discriminate.
    + set (N := requested_Z (List.length inputAudioData) s d) in *.
      unfold less_than, signed. cbn [floor_Z signed]. rewrite Qfloor_Z.
      destruct (Qltb (inject_Z max_length) (inject_Z N)) eqn:Hfit; [discriminate|].
      apply CaptureFacts.Qltb_ge in Hfit. rewrite <- Zle_Qle in Hfit.
      intros Hout. apply Normal_injective in Hout. subst out.
      rewrite length_map, length_seq. split.
      * rewrite of_nat_exact by lia. now rewrite Z2Nat.id.
      * intros i Hi.
        assert (Hi' : (Z.of_nat i < N)%Z) by lia.
        destruct (taps_in_bounds max_length _ i s d Hmax Hlen Hs Hd Hrep Hfit Hi')
          as (idx & Hidx & [Hf0 Hf1] & Htaps).
        pose proof (resample_sample_in_bounds max_length inputAudioData i s d
                      Hmax Hlen Hs Hd Hrep Hfit Hi') as Hsample.
        rewrite Htaps in *. cbn [index1 index2 fraction].
        set (n1 := Z.to_nat (Qfloor idx)).
        set (n2 := Z.to_nat (Z.min (Qfloor idx + 1)
                               (Z.of_nat (List.length inputAudioData) - 1))).
        assert (H1 : (n1 < List.length inputAudioData)%nat) by (unfold n1; lia).
        assert (H2 : (n2 < List.length inputAudioData)%nat) by (unfold n2; lia).
        destruct (nth_error inputAudioData n1) as [x1|] eqn:Hx1;
          [|apply nth_error_None in Hx1; lia].
        destruct (nth_error inputAudioData n2) as [x2|] eqn:Hx2;
          [|apply nth_error_None in Hx2; lia].
        exists n1, n2, x1, x2.
        rewrite !array_index_of_integer by lia.
        repeat split; try reflexivity; try assumption.
        -- unfold n1, n2. lia.
        -- rewrite nth_error_map, nth_error_seq.
           destruct (Nat.ltb_spec i (Z.to_nat N)); [|lia].
           cbn [option_map Nat.add]. rewrite <- Hsample.
           unfold resample_sample. cbn [index1 index2 fraction].
           rewrite !array_get_integer by lia.
           fold n1 n2. now rewrite Hx1, Hx2.
Qed.

End CaptureIeeeFacts.

(* ================================================================== *)
(** * Part IV: the playback queue *)
(* ================================================================== *)

Module PlaybackFacts.

Import Playback.

Local Open Scope nat_scope.

Lemma consistent_initial : consistent [] initial.
Proof. constructor; simpl; auto. Qed.

(** The loop, entered by the only activation with nothing being rendered,
    stops at the first non-empty buffer or drains the queue. *)
Lemma while_loop_consistent (queue : list ArrayBuffer) :
  forall p : player,
    isAudioPlaying p = true ->
    rendering p = [] ->
    played p = filter nonempty (shifted p) ->
    consistent (shifted p ++ queue) (while_loop queue p).
Proof.
  induction queue as [|raw rest IH]; intros p Hplaying Hnone Hplayed.
  - simpl. constructor; simpl; rewrite ?Hnone; auto.
  - simpl. fold (nonempty raw). destruct (nonempty raw) eqn:Hraw.
    + constructor; simpl.
      * now rewrite <- app_assoc.
      * rewrite filter_app, Hplayed. simpl. now rewrite Hraw.
      * rewrite Hnone. simpl. lia.
      * rewrite Hnone. simpl. assumption.
      * congruence.
    + replace (shifted p ++ raw :: rest) with ((shifted p ++ [raw]) ++ rest)
        by now rewrite <- app_assoc.
      apply (IH (mkPlayer rest (isAudioPlaying p) (rendering p)
                          (shifted p ++ [raw]) (played p))); simpl; auto.
      rewrite filter_app, Hplayed. simpl. rewrite Hraw. now rewrite app_nil_r.
Qed.


Lemma step_consistent (E : list ArrayBuffer) (p : player) (e : event) :
  consistent E p ->
  consistent (E ++ enqueued [e]) (step p e).
Proof.
  intros [Hfifo Hplayed Hone Hflag Hidle].
  destruct e as [raw|k]; simpl.
  - unfold on_audio; simpl. destruct (isAudioPlaying p) eqn:Hplaying; simpl.
    + constructor; simpl; auto.
      * now rewrite app_assoc, Hfifo.
      * discriminate.
    + unfold processAudioQueue; simpl.
      rewrite <- Hfifo, <- app_assoc.
      apply (while_loop_consistent (audioQueue p ++ [raw])
               (mkPlayer (audioQueue p ++ [raw]) true (rendering p)
                         (shifted p) (played p))); simpl; auto.
      symmetry in Hflag. apply negb_false_iff, Nat.eqb_eq in Hflag.
      now destruct (rendering p).
  - rewrite app_nil_r. unfold on_settled.
    destruct (nth_error (rendering p) k) eqn:Hk.
    + destruct (rendering p) as [|b [|b' more]] eqn:Hr; simpl in *; try lia.
      * now destruct k.
      * destruct k as [|k]; [|now destruct k].
        simpl. rewrite <- Hfifo.
        apply (while_loop_consistent (audioQueue p)
                 (mkPlayer (audioQueue p) (isAudioPlaying p) [] (shifted p) (played p)));
          simpl; auto.
    + constructor; auto.
Qed.

Lemma run_consistent (evs : list event) :
  forall (E : list ArrayBuffer) (p : player),
    consistent E p ->
    consistent (E ++ enqueued evs) (fold_left step evs p).
Proof.
  induction evs as [|e evs IH]; intros E p Hp.
  - simpl. now rewrite app_nil_r.
  - simpl fold_left.
    replace (E ++ enqueued (e :: evs)) with ((E ++ enqueued [e]) ++ enqueued evs).
    + apply IH. now apply step_consistent.
    + rewrite <- app_assoc. f_equal. destruct e; reflexivity.
Qed.


End PlaybackFacts.

(* ================================================================== *)
(** * Part V: the claims on concrete inputs *)
(* ================================================================== *)

Module ProxyExamples.

Import Proxy Samples ProxyFacts.

(** C2.  The agent's [{"type":"ping"}] text frame, received by a ready
    session with both sockets open: the handler answers with a pong on the
    agent socket and then also sends the ping envelope to the frontend. *)
Theorem ping_is_also_forwarded_downstream :
  sample_parse (envelope_text "ping") = Some (envelope "ping")
  /\ has_type "ping" (envelope "ping") = true
  /\ elevenLabsWs_on_message sample_parse (envelope_text "ping") false ready_session
     = (ready_session,
        [Pong elevenLabsWs; Send frontendWs (Stringify (envelope "ping"))])
  /\ filter is_downstream_send
       (snd (elevenLabsWs_on_message sample_parse (envelope_text "ping") false
               ready_session))
     = [Send frontendWs (Stringify (envelope "ping"))].
Proof. repeat split; reflexivity. Qed.

(** C1, as stated, fails: the frontend disconnects, the proxy closes the
    agent socket, the agent socket emits [close]; the session is complete
    and no [conversationEnded] was sent. *)
Lemma frontend_disconnect_gets_no_conversationEnded :
  let evs := [ElOpen; FeClose; ElClose 1000%Z "Frontend disconnected"] in
  complete evs = true
  /\ snd (run sample_parse handleWebSocketConnection evs)
     = [Close elevenLabsWs (Some 1000%Z) (Some "Frontend disconnected")]
  /\ conversationEnded_count (snd (run sample_parse handleWebSocketConnection evs)) = 0%nat
  /\ close_notifications (trace sample_parse handleWebSocketConnection evs) = 0%nat.
Proof. repeat split; reflexivity. Qed.

Lemma conversationEnded_at_most_once_witness :
  let evs := [ElOpen;
              ElMessage (envelope_text "conversation_initiation_metadata") false;
              FeMessage (envelope_text "end_conversation") false;
              ElClose 1000%Z "User ended conversation";
              FeClose] in
  conversationEnded_count (snd (run sample_parse handleWebSocketConnection evs))
  = close_notifications (trace sample_parse handleWebSocketConnection evs)
  /\ close_notifications (trace sample_parse handleWebSocketConnection evs) = 1%nat.
Proof.
  intros evs.
  destruct (conversationEnded_at_most_once sample_parse evs) as (_ & Hiff & Hall).
  split.
  - apply Hall. reflexivity.
  - apply Hiff.
    exists [ElOpen;
            ElMessage (envelope_text "conversation_initiation_metadata") false;
            FeMessage (envelope_text "end_conversation") false],
           1000%Z, "User ended conversation"%string, [FeClose].
    split; reflexivity.
Defined.

Lemma readiness_gate_drops_frontend_messages_witness :
  let evs := [ElOpen; FeMessage (envelope_text "user_audio_chunk") false;
              ElMessage (envelope_text "agent_response") false] in
  isElevenLabsReady (fst (run sample_parse handleWebSocketConnection evs)) = false
  /\ filter is_upstream_send (snd (run sample_parse handleWebSocketConnection evs)) = []
  /\ dispatch sample_parse (FeMessage (envelope_text "user_audio_chunk") false)
       (fst (run sample_parse handleWebSocketConnection evs))
     = (fst (run sample_parse handleWebSocketConnection evs), []).
Proof.
  intros evs.
  apply (readiness_gate_drops_frontend_messages sample_parse evs
           (envelope_text "user_audio_chunk") false).
  reflexivity.
Defined.

(** C4, as stated, fails: before the session is ready the message closes
    nothing, and in a ready session the reason passed to [close] is not the
    one the claim gives. *)
Lemma end_conversation_does_not_always_close :
  sample_parse (envelope_text "end_conversation") = Some (envelope "end_conversation")
  /\ snd (frontendWs_on_message sample_parse (envelope_text "end_conversation") false
            waiting_session) = []
  /\ ~ In (Close elevenLabsWs (Some 1000%Z) (Some "user ended conversation"))
         (snd (frontendWs_on_message sample_parse (envelope_text "end_conversation") false
                 ready_session)).
Proof.
  repeat split; try reflexivity.
  simpl. intros [H|[]]. discriminate H.
Qed.

Lemma end_conversation_is_consumed_witness :
  frontendWs_on_message sample_parse (envelope_text "end_conversation") false ready_session
  = (mkSession OPEN CLOSING false true,
     [Close elevenLabsWs (Some 1000%Z) (Some "User ended conversation")]).
Proof.
  apply (proj1 (end_conversation_is_consumed sample_parse ready_session
                  (envelope_text "end_conversation") (envelope "end_conversation")
                  eq_refl eq_refl)).
Defined.

(** C5, as stated, fails: a binary frame from the frontend, received by a
    ready session whose agent socket is open, is not sent to the agent. *)
Lemma frontend_binary_frame_is_dropped :
  frontendWs_on_message sample_parse pcm_bytes true ready_session = (ready_session, [])
  /\ ~ In (Send elevenLabsWs (Binary pcm_bytes))
         (snd (frontendWs_on_message sample_parse pcm_bytes true ready_session)).
Proof. split; [reflexivity | intros []]. Qed.

Lemma end_conversation_needs_readiness_witness :
  frontendWs_on_message sample_parse (envelope_text "end_conversation") false waiting_session
  = (waiting_session, [])
  /\ isElevenLabsReady ready_session = true.
Proof.
  split.
  - apply (proj1 (end_conversation_needs_readiness sample_parse waiting_session
                    (envelope_text "end_conversation") (envelope "end_conversation")
                    eq_refl eq_refl)).
    reflexivity.
  - apply (proj2 (end_conversation_needs_readiness sample_parse ready_session
                    (envelope_text "end_conversation") (envelope "end_conversation")
                    eq_refl eq_refl)
             (Some 1000%Z) (Some "User ended conversation"%string)).
    simpl. left. reflexivity.
Defined.

End ProxyExamples.

Module CaptureExamples.

Import Capture CaptureFacts Samples.

Local Open Scope Q_scope.

(** Downsampling by three keeps every third sample; doubling the rate
    inserts the midpoints and repeats the last sample. *)
Example resampleAudio_48k_to_16k :
  resampleAudio frame (Finite 48000) (Finite 16000)
  = Normal [Finite (0 # 160000); Finite (1440000 # 1600000)].
Proof. reflexivity. Qed.

Example resampleAudio_8k_to_16k :
  resampleAudio [Finite 0; Finite 1] (Finite 8000) (Finite 16000)
  = Normal [Finite (0 # 16000); Finite (8000 # 16000);
            Finite (16000 # 16000); Finite (16000 # 16000)].
Proof. reflexivity. Qed.

Example pcm16_samples :
  map pcm16 [Finite (1 # 2); Finite (-1 # 2); Finite 2; Finite (-3); NaN]
  = [16383; -16384; 32767; -32768; 0]%Z.
Proof. reflexivity. Qed.

End CaptureExamples.

Module CaptureIeeeExamples.

Import Ieee754 CaptureIeee Ieee754Facts CaptureIeeeFacts IeeeSamples.

Local Open Scope Q_scope.

(** The second output sample of [ramp] resampled from 44100 Hz to
    16000 Hz.  The formula of the specification, evaluated exactly, gives
    [0.5 + 0.75625 * 0.25 = 441/640], which is no binary fraction.
    Evaluated in binary64 it gives [6206523236469965 / 2 ^ 53], about
    [0.68906249999999996].  The function returns neither: the store in
    the [Float32Array] rounds that number to binary32, and the sample
    returned is [5780275 / 2 ^ 23 = 0.68906247615814208984375]. *)
Lemma resampleAudio_stores_rounded_samples :
  Capture.spec_resample ramp_exact 44100 16000
  = [JsNumber.Finite (0 # 64000); JsNumber.Finite (176400 # 256000)]
  /\ 176400 # 256000 == 441 # 640
  /\ resample_sample ramp (resample_taps (of_nat 6) (div (of_Z 44100) (of_Z 16000)) 1)
     = Finite false (6206523236469965 # 9007199254740992)
  /\ resampleAudio sample_max_length ramp (of_Z 44100) (of_Z 16000)
     = Normal [Finite false 0; Finite false (5780275 # 8388608)]
  /\ ~ 5780275 # 8388608 == 441 # 640
  /\ ~ 5780275 # 8388608 == 6206523236469965 # 9007199254740992.
Proof.
  split; [vm_compute; reflexivity|].
  split; [reflexivity|].
  split; [vm_compute; reflexivity|].
  split; [vm_compute; reflexivity|].
  split; intros H; discriminate H.
Qed.

Lemma resampleAudio_rounds_the_reference_witness :
  resampleAudio sample_max_length ramp (of_Z 44100) (of_Z 16000)
  = spec_resample sample_max_length ramp (of_Z 44100) (of_Z 16000).
Proof.
  apply (resampleAudio_rounds_the_reference sample_max_length ramp
           (of_Z 44100) (of_Z 16000)).
  - unfold sample_max_length. lia.
  - unfold sample_max_length. simpl. lia.
  - vm_compute. reflexivity.
  - vm_compute. reflexivity.
Defined.

(** Two positive rates whose ratio asks for an output longer than any
    typed array: one sample at [2 ^ -40] Hz resampled to 16000 Hz needs
    [16000 * 2 ^ 40] samples, which is above [2 ^ 53 - 1], and the six
    samples of [ramp] at 1 Hz resampled to [10 ^ 9] Hz need
    [6 * 10 ^ 9], which is above the sample limit. *)
Lemma resampleAudio_throws_at_positive_rates :
  is_positive_binary64 (of_Q (pow2 (-40))) = true
  /\ is_positive_binary64 (of_Z 16000) = true
  /\ (forall max_length : Z,
        resampleAudio max_length [Finite false 0] (of_Q (pow2 (-40))) (of_Z 16000)
        = Throw)
  /\ is_positive_binary64 (of_Z 1) = true
  /\ is_positive_binary64 (of_Z 1000000000) = true
  /\ resampleAudio sample_max_length ramp (of_Z 1) (of_Z 1000000000) = Throw.
Proof.
  split; [vm_compute; reflexivity|].
  split; [vm_compute; reflexivity|].
  split; [intros max_length; vm_compute; reflexivity|].
  split; [vm_compute; reflexivity|].
  split; vm_compute; reflexivity.
Qed.

Lemma resampleAudio_is_total_up_to_allocation_witness :
  resampleAudio sample_max_length [] (of_Z 44100) (of_Z 16000) = Normal []
  /\ exists n1 n2 x1 x2,
       array_index (index1 (resample_taps (of_nat 6) (div (of_Z 44100) (of_Z 16000)) 1))
       = Some n1
       /\ array_index (index2 (resample_taps (of_nat 6) (div (of_Z 44100) (of_Z 16000)) 1))
          = Some n2
       /\ n2 = Nat.min (n1 + 1) (6 - 1)
       /\ nth_error ramp n1 = Some x1
       /\ nth_error ramp n2 = Some x2
       /\ nth_error [Finite false 0; Finite false (5780275 # 8388608)] 1
          = Some (fround (interpolate x1 x2
                            (fraction (resample_taps (of_nat 6)
                                         (div (of_Z 44100) (of_Z 16000)) 1)))).
Proof.
  split.
  - apply (resampleAudio_is_total_up_to_allocation sample_max_length []
             (of_Z 44100) (of_Z 16000)).
    + unfold sample_max_length. lia.
    + unfold sample_max_length. simpl. lia.
    + vm_compute. reflexivity.
    + vm_compute. reflexivity.
    + reflexivity.
  - apply (resampleAudio_is_total_up_to_allocation sample_max_length ramp
             (of_Z 44100) (of_Z 16000)).
    + unfold sample_max_length. lia.
    + unfold sample_max_length. simpl. lia.
    + vm_compute. reflexivity.
    + vm_compute. reflexivity.
    + vm_compute. reflexivity.
    + vm_compute. reflexivity.
    + simpl. lia.
Defined.

(** At 37800 Hz the rounding of [step] moves a read: in binary64
    [400 * step] is just below 945, so output sample 400 starts from input
    sample 944, where exact arithmetic says 945. *)
Example first_index_follows_binary64 :
  index1 (resample_taps (of_nat 4096) (div (of_Z 37800) (of_Z 16000)) 400)
  = Finite false 944
  /\ Capture.index1
       (Capture.resample_taps (JsNumber.of_nat 4096)
          (JsNumber.div (JsNumber.of_Z 37800) (JsNumber.of_Z 16000)) 400)
     = JsNumber.Finite 945.
Proof. split; vm_compute; reflexivity. Qed.

(** Equal rates return the very input. *)
Example resampleAudio_identity :
  resampleAudio sample_max_length
    [of_Q (1 # 10); of_Q (-2 # 10); of_Q (3 # 10)] (of_Z 16000) (of_Z 16000)
  = Normal [of_Q (1 # 10); of_Q (-2 # 10); of_Q (3 # 10)].
Proof. reflexivity. Qed.

(** The operations agree with the Standard Library's specification of
    IEEE 754 arithmetic on the values of the second output sample above:
    the step, the index, the interpolation weight, the product, the sum
    and the binary32 value stored. *)
Example operations_agree_with_SpecFloat :
  let b64 := to_spec_float binary64 in
  let step := div (of_Z 44100) (of_Z 16000) in
  let index := mul (of_nat 1) step in
  let fraction := sub index (Math_floor index) in
  let product := mul fraction (sub (Finite false (3 # 4)) (Finite false (1 # 2))) in
  let sample := add (Finite false (1 # 2)) product in
  b64 step = SFdiv 53 1024 (b64 (of_Z 44100)) (b64 (of_Z 16000))
  /\ b64 index = SFmul 53 1024 (b64 (of_nat 1)) (b64 step)
  /\ b64 fraction = SFsub 53 1024 (b64 index) (b64 (Math_floor index))
  /\ b64 product
     = SFmul 53 1024 (b64 fraction)
         (SFsub 53 1024 (b64 (Finite false (3 # 4))) (b64 (Finite false (1 # 2))))
  /\ b64 sample = SFadd 53 1024 (b64 (Finite false (1 # 2))) (b64 product)
  /\ b64 sample = S754_finite false 6206523236469965 (-53)
  /\ to_spec_float binary32 (fround sample)
     = binary_normalize 24 128 6206523236469965 (-53) false.
Proof. repeat split; vm_compute; reflexivity. Qed.

(** And on a subnormal quotient, an overflowing product and a negative
    difference. *)
Example special_results_agree_with_SpecFloat :
  let b64 := to_spec_float binary64 in
  b64 (div (of_Q (pow2 (-1070))) (of_Z 3))
  = SFdiv 53 1024 (b64 (of_Q (pow2 (-1070)))) (b64 (of_Z 3))
  /\ b64 (mul (of_Q (pow2 1000)) (of_Q (pow2 30)))
     = SFmul 53 1024 (b64 (of_Q (pow2 1000))) (b64 (of_Q (pow2 30)))
  /\ b64 (sub (of_Q (1 # 10)) (of_Q (3 # 10)))
     = SFsub 53 1024 (b64 (of_Q (1 # 10))) (b64 (of_Q (3 # 10)))
  /\ b64 (mul (of_nat 400) (div (of_Z 37800) (of_Z 16000)))
     = SFmul 53 1024 (b64 (of_nat 400))
         (SFdiv 53 1024 (b64 (of_Z 37800)) (b64 (of_Z 16000))).
Proof. repeat split; vm_compute; reflexivity. Qed.

End CaptureIeeeExamples.

Module PlaybackExamples.

Import Playback Samples.

(** Three enqueues while the first buffer plays, then three completion
    signals: the buffers are rendered in order and the worker is idle only
    after the third signal. *)
Example three_buffers_play_in_order :
  played (run [Audio chunk1; Audio chunk2; Audio chunk3; Settled 0; Settled 0]) = [chunk1; chunk2; chunk3]
  /\ isAudioPlaying (run [Audio chunk1; Audio chunk2; Audio chunk3; Settled 0; Settled 0]) = true
  /\ rendering (run [Audio chunk1; Audio chunk2; Audio chunk3; Settled 0; Settled 0]) = [chunk3]
  /\ isAudioPlaying (run [Audio chunk1; Audio chunk2; Audio chunk3; Settled 0; Settled 0; Settled 0])
     = false.
Proof. repeat split; reflexivity. Qed.

End PlaybackExamples.

(* ================================================================== *)
(** * Part VI: further properties of the proxy session *)
(* ================================================================== *)

Module ProxyInvariants.

Import Proxy ProxyCalls ProxyFacts Samples.

Section WithParser.

Variable JSON_parse : buffer -> option json.

Local Abbreviation run := (run JSON_parse).
Local Abbreviation dispatch := (dispatch JSON_parse).

(** *** A socket that is closing or closed is left alone *)

Lemma dispatch_leaves_shut_agent (s : session) (e : event) :
  shut (elevenLabsState s) = true ->
  shut (elevenLabsState (fst (dispatch e s))) = true
  /\ filter (on_socket elevenLabsWs) (snd (dispatch e s)) = [].
Proof.
  intros Hshut.
  destruct e as [ | m | c r | data b | data b | | m ]; unfold Proxy.dispatch.
  - session_cases s; try discriminate; simpl; auto.
  - session_cases s; try discriminate; simpl; auto.
  - session_cases s; try discriminate; simpl; auto.
  - cbn [handler socket_emits].
    unfold elevenLabsWs_on_message, elevenLabsWs_parse_failed.
    destruct (readyState_eqb (frontendState s) OPEN); simpl; auto.
    destruct b; simpl; auto.
    assert (Hno : readyState_eqb (elevenLabsState s) OPEN = false)
      by (destruct (elevenLabsState s); auto; discriminate).
    rewrite Hno. parse_cases; simpl; auto.
  - cbn [handler socket_emits].
    unfold frontendWs_on_message.
    assert (Hno : readyState_eqb (elevenLabsState s) OPEN = false)
      by (destruct (elevenLabsState s); auto; discriminate).
    rewrite Hno. destruct b; simpl; auto.
    destruct (isElevenLabsReady s); simpl; auto.
  - session_cases s; try discriminate; simpl; auto.
  - session_cases s; try discriminate; simpl; auto.
Qed.

Lemma dispatch_leaves_shut_frontend (s : session) (e : event) :
  shut (frontendState s) = true ->
  shut (frontendState (fst (dispatch e s))) = true
  /\ filter (on_socket frontendWs) (snd (dispatch e s)) = [].
Proof.
  intros Hshut.
  destruct e as [ | m | c r | data b | data b | | m ]; unfold Proxy.dispatch.
  - session_cases s; try discriminate; simpl; auto.
  - session_cases s; try discriminate; simpl; auto.
  - session_cases s; try discriminate; simpl; auto.
  - cbn [handler socket_emits].
    unfold elevenLabsWs_on_message.
    assert (Hno : readyState_eqb (frontendState s) OPEN = false)
      by (destruct (frontendState s); auto; discriminate).
    rewrite Hno. simpl. auto.
  - cbn [handler socket_emits].
    unfold frontendWs_on_message.
    destruct b; simpl; auto.
    destruct (isElevenLabsReady s); simpl; auto.
    destruct (readyState_eqb (elevenLabsState s) OPEN) eqn:Hel; simpl; auto.
    parse_cases; simpl; auto.
  - session_cases s; try discriminate; simpl; auto.
  - session_cases s; try discriminate; simpl; auto.
Qed.

(** X1.  Once the agent socket is closing or closed, the proxy makes no
    further call on it, whatever events follow: no send, no pong and no
    second close. *)
Theorem shut_agent_socket_is_left_alone (s : session) (evs : list event) :
  shut (elevenLabsState s) = true ->
  shut (elevenLabsState (fst (run s evs))) = true
  /\ filter (on_socket elevenLabsWs) (snd (run s evs)) = [].
Proof.
  revert s. induction evs as [|e evs IH]; intros s Hshut.
  - auto.
  - destruct (dispatch_leaves_shut_agent s e Hshut) as [H1 H2].
    destruct (IH _ H1) as [H3 H4].
    rewrite run_cons. cbn [fst snd]. split; [assumption|].
    now rewrite filter_app, H2, H4.
Qed.

(** X2.  Once the frontend socket is closing or closed, the proxy makes no
    further call on it, whatever events follow. *)
Theorem shut_frontend_socket_is_left_alone (s : session) (evs : list event) :
  shut (frontendState s) = true ->
  shut (frontendState (fst (run s evs))) = true
  /\ filter (on_socket frontendWs) (snd (run s evs)) = [].
Proof.
  revert s. induction evs as [|e evs IH]; intros s Hshut.
  - auto.
  - destruct (dispatch_leaves_shut_frontend s e Hshut) as [H1 H2].
    destruct (IH _ H1) as [H3 H4].
    rewrite run_cons. cbn [fst snd]. split; [assumption|].
    now rewrite filter_app, H2, H4.
Qed.

(** *** Each socket is closed at most once *)

(** Closes a case of a handler: count the [close] calls in its log. *)
Ltac counted :=
  unfold close_count; simpl; split; [lia | first [discriminate | intros _; reflexivity]].

Lemma close_count_app (sock : socket) (a b : list call) :
  close_count sock (a ++ b) = (close_count sock a + close_count sock b)%nat.
Proof.
  unfold close_count. now rewrite filter_app, length_app.
Qed.

Lemma dispatch_leaves_shut (sock : socket) (s : session) (e : event) :
  shut (state_of sock s) = true ->
  shut (state_of sock (fst (dispatch e s))) = true
  /\ close_count sock (snd (dispatch e s)) = 0%nat.
Proof.
  intros Hshut.
  assert (Hnone : forall calls, filter (on_socket sock) calls = [] ->
                                close_count sock calls = 0%nat).
  { unfold close_count. induction calls as [|c calls IH]; simpl; auto.
    destruct (on_socket sock c) eqn:Hon; [discriminate|].
    rewrite andb_false_r. auto. }
  destruct sock; cbn [state_of] in *.
  - destruct (dispatch_leaves_shut_frontend s e Hshut). auto.
  - destruct (dispatch_leaves_shut_agent s e Hshut). auto.
Qed.

(** A socket that is closing or closed is not closed again. *)
Lemma shut_socket_is_not_closed_again (sock : socket) (evs : list event) :
  forall s : session,
    shut (state_of sock s) = true -> close_count sock (snd (run s evs)) = 0%nat.
Proof.
  induction evs as [|e evs IH]; intros s Hshut; [reflexivity|].
  destruct (dispatch_leaves_shut sock s e Hshut) as [H1 H2].
  rewrite run_cons. cbn [snd]. now rewrite close_count_app, H2, (IH _ H1).
Qed.

(** A handler calls [close] on a socket at most once, and the socket is
    closing afterwards. *)
Lemma dispatch_closes_once (sock : socket) (s : session) (e : event) :
  (close_count sock (snd (dispatch e s)) <= 1)%nat
  /\ (close_count sock (snd (dispatch e s)) = 1%nat ->
      shut (state_of sock (fst (dispatch e s))) = true).
Proof.
  destruct e as [ | m | c r | data b | data b | | m ]; unfold Proxy.dispatch.
  - destruct sock; session_cases s; counted.
  - destruct sock; session_cases s; counted.
  - destruct sock; session_cases s; counted.
  - cbn [handler socket_emits].
    unfold elevenLabsWs_on_message, elevenLabsWs_parse_failed.
    destruct (readyState_eqb (frontendState s) OPEN); [|counted].
    destruct b; [destruct sock; counted|].
    cbn [negb].
    parse_cases; destruct (readyState_eqb (elevenLabsState s) OPEN);
      destruct sock; counted.
  - cbn [handler socket_emits].
    unfold frontendWs_on_message.
    destruct b; [counted|].
    destruct (isElevenLabsReady s); [|counted].
    destruct (elevenLabsState s) eqn:Hel; try counted.
    cbn [negb readyState_eqb].
    parse_cases; destruct sock; counted.
  - destruct sock; session_cases s; counted.
  - destruct sock; session_cases s; counted.
Qed.

(** X3.  In any session, from any state, [close] is called at most once on
    the agent socket and at most once on the frontend socket. *)
Theorem each_socket_is_closed_at_most_once
    (sock : socket) (s : session) (evs : list event) :
  (close_count sock (snd (run s evs)) <= 1)%nat.
Proof.
  revert s. induction evs as [|e evs IH]; intros s.
  - unfold close_count. simpl. lia.
  - rewrite run_cons. cbn [snd]. rewrite close_count_app.
    destruct (dispatch_closes_once sock s e) as [Hle Hshut].
    destruct (Nat.eq_dec (close_count sock (snd (dispatch e s))) 1) as [H1|H1].
    + specialize (Hshut H1).
      rewrite (shut_socket_is_not_closed_again sock evs _ Hshut). lia.
    + specialize (IH (fst (dispatch e s))). lia.
Qed.

(** *** Writes go to open sockets only *)

Lemma dispatch_keeps_frontend_accepted (s : session) (e : event) :
  readyState_eqb (frontendState s) CONNECTING = false ->
  readyState_eqb (frontendState (fst (dispatch e s))) CONNECTING = false.
Proof.
  intros Hfe.
  destruct e as [ | m | c r | data b | data b | | m ]; unfold Proxy.dispatch.
  - session_cases s; try discriminate; reflexivity.
  - session_cases s; try discriminate; reflexivity.
  - session_cases s; try discriminate; reflexivity.
  - cbn [handler socket_emits].
    unfold elevenLabsWs_on_message, elevenLabsWs_parse_failed.
    destruct (readyState_eqb (frontendState s) OPEN); simpl; auto.
    destruct b; simpl; auto.
    parse_cases; destruct (readyState_eqb (elevenLabsState s) OPEN); simpl; auto.
  - cbn [handler socket_emits].
    unfold frontendWs_on_message.
    destruct b; simpl; auto.
    destruct (isElevenLabsReady s); simpl; auto.
    destruct (readyState_eqb (elevenLabsState s) OPEN); simpl; auto.
    parse_cases; simpl; auto.
  - session_cases s; try discriminate; reflexivity.
  - session_cases s; try discriminate; reflexivity.
Qed.

Lemma run_keeps_frontend_accepted (evs : list event) (s : session) :
  readyState_eqb (frontendState s) CONNECTING = false ->
  readyState_eqb (frontendState (fst (run s evs))) CONNECTING = false.
Proof.
  revert s. induction evs as [|e evs IH]; intros s Hfe; [assumption|].
  rewrite run_cons. cbn [fst]. apply IH. now apply dispatch_keeps_frontend_accepted.
Qed.

Lemma handler_writes_on_open (s : session) (e : event) :
  readyState_eqb (frontendState s) CONNECTING = false ->
  forallb (fun c => negb (writes c)
                    || readyState_eqb (state_of (socket_of c) (socket_emits e s)) OPEN)
          (snd (dispatch e s)) = true.
Proof.
  intros Hfe.
  destruct e as [ | m | c r | data b | data b | | m ]; unfold Proxy.dispatch.
  - session_cases s; try discriminate; reflexivity.
  - session_cases s; try discriminate; reflexivity.
  - session_cases s; try discriminate; reflexivity.
  - cbn [handler socket_emits].
    unfold elevenLabsWs_on_message, elevenLabsWs_parse_failed.
    destruct (readyState_eqb (frontendState s) OPEN) eqn:Hopen; simpl; auto.
    destruct b; simpl; [now rewrite Hopen|].
    parse_cases; destruct (readyState_eqb (elevenLabsState s) OPEN) eqn:Hel;
      simpl; rewrite ?Hopen, ?Hel; reflexivity.
  - cbn [handler socket_emits].
    unfold frontendWs_on_message.
    destruct b; simpl; auto.
    destruct (isElevenLabsReady s); simpl; auto.
    destruct (readyState_eqb (elevenLabsState s) OPEN) eqn:Hel; simpl; auto.
    parse_cases; simpl; rewrite ?Hel; reflexivity.
  - session_cases s; try discriminate; reflexivity.
  - session_cases s; try discriminate; reflexivity.
Qed.

(** X4.  In a session started by [handleWebSocketConnection], whenever a
    handler calls [send] or [pong] on a socket, that socket is open at that
    moment: the proxy never writes to a connecting, closing or closed
    socket. *)
Theorem writes_go_to_open_sockets_only (evs : list event) (e : event) (c : call) :
  In c (snd (dispatch e (fst (run handleWebSocketConnection evs)))) ->
  writes c = true ->
  state_of (socket_of c) (socket_emits e (fst (run handleWebSocketConnection evs))) = OPEN.
Proof.
  intros Hin Hw.
  pose proof (run_keeps_frontend_accepted evs handleWebSocketConnection eq_refl) as Hfe.
  pose proof (handler_writes_on_open _ e Hfe) as Hall.
  rewrite forallb_forall in Hall. specialize (Hall c Hin).
  rewrite Hw in Hall. simpl in Hall.
  now destruct (state_of _ _).
Qed.

(** *** The two flags *)

Lemma dispatch_keeps_flags (s : session) (e : event) :
  (isElevenLabsReady s = true -> isElevenLabsReady (fst (dispatch e s)) = true)
  /\ (isElevenLabsClosed s || is_upstream_end e = true ->
      isElevenLabsClosed (fst (dispatch e s)) = true).
Proof.
  destruct e as [ | m | c r | data b | data b | | m ]; unfold Proxy.dispatch.
  - session_cases s; simpl; auto.
  - session_cases s; simpl; auto.
  - session_cases s; simpl; auto.
  - cbn [handler socket_emits is_upstream_end]. rewrite orb_false_r.
    unfold elevenLabsWs_on_message, elevenLabsWs_parse_failed.
    destruct (readyState_eqb (frontendState s) OPEN); simpl; auto.
    destruct b; simpl; auto.
    parse_cases; destruct (readyState_eqb (elevenLabsState s) OPEN); simpl; auto.
  - cbn [handler socket_emits is_upstream_end]. rewrite orb_false_r.
    unfold frontendWs_on_message.
    destruct b; simpl; auto.
    session_cases s; simpl; auto; parse_cases; simpl; auto.
  - session_cases s; simpl; auto.
  - session_cases s; simpl; auto.
Qed.

Lemma run_keeps_flags (evs : list event) (s : session) :
  (isElevenLabsReady s = true -> isElevenLabsReady (fst (run s evs)) = true)
  /\ (isElevenLabsClosed s || existsb is_upstream_end evs = true ->
      isElevenLabsClosed (fst (run s evs)) = true).
Proof.
  revert s. induction evs as [|e evs IH]; intros s.
  - simpl. rewrite orb_false_r. auto.
  - rewrite run_cons. cbn [fst].
    destruct (dispatch_keeps_flags s e) as [Hr Hc].
    destruct (IH (fst (dispatch e s))) as [IHr IHc].
    split; [auto|].
    intros H. apply IHc. cbn [existsb] in H.
    destruct (existsb is_upstream_end evs); [apply orb_true_r|].
    rewrite orb_false_r in *. auto.
Qed.

(** X5.  The flag [isElevenLabsClosed] is set by the first [error] or
    [close] event of the agent socket and never cleared; from then on the
    handlers of the frontend's [close] and [error] events call nothing:
    the agent socket is not closed a second time by them. *)
Theorem agent_end_is_remembered (s : session) (evs : list event) (m : string) :
  isElevenLabsClosed s || existsb is_upstream_end evs = true ->
  isElevenLabsClosed (fst (run s evs)) = true
  /\ snd (dispatch FeClose (fst (run s evs))) = []
  /\ snd (dispatch (FeError m) (fst (run s evs))) = [].
Proof.
  intros H. apply (proj2 (run_keeps_flags evs s)) in H.
  repeat split; auto; unfold Proxy.dispatch; simpl;
    unfold frontendWs_on_close, frontendWs_on_error, elevenLabs_still_up; simpl;
    now rewrite H.
Qed.

Local Abbreviation metadata := (upstream_envelope JSON_parse "conversation_initiation_metadata").

Lemma ping_is_not_metadata (ty : option json) :
  strict_eq ty "ping" = true ->
  strict_eq ty "conversation_initiation_metadata" = false.
Proof.
  destruct ty as [[ | | | t | | ]|]; simpl; try discriminate.
  intros H. apply String.eqb_eq in H. now subst t.
Qed.

(** What one event does to the readiness flag. *)
Lemma dispatch_sets_ready (s : session) (e : event) :
  isElevenLabsReady (fst (dispatch e s)) =
    isElevenLabsReady s || (metadata e && readyState_eqb (frontendState s) OPEN).
Proof.
  destruct e as [ | m | c r | data b | data b | | m ]; unfold Proxy.dispatch.
  - session_cases s; reflexivity.
  - session_cases s; reflexivity.
  - session_cases s; reflexivity.
  - cbn [handler socket_emits upstream_envelope].
    unfold elevenLabsWs_on_message, elevenLabsWs_parse_failed, has_type.
    destruct (readyState_eqb (frontendState s) OPEN); simpl;
      [|now rewrite andb_false_r, orb_false_r].
    destruct b; simpl; [now rewrite orb_false_r|].
    destruct (JSON_parse data) as [j|]; simpl; [|now rewrite orb_false_r].
    destruct (prop_type j) as [ty|]; simpl; [|now rewrite orb_false_r].
    destruct (template_literal ty) eqn:Hlog; simpl.
    2: { destruct (strict_eq ty "conversation_initiation_metadata") eqn:Hm;
           [|now rewrite orb_false_r].
         rewrite (strict_eq_prints _ _ Hm) in Hlog. discriminate. }
    destruct (strict_eq ty "ping") eqn:Hping.
    + rewrite (ping_is_not_metadata ty Hping).
      destruct (readyState_eqb (elevenLabsState s) OPEN); simpl;
        now rewrite orb_false_r.
    + destruct (strict_eq ty "conversation_initiation_metadata"); simpl.
      * now rewrite orb_true_r.
      * now rewrite orb_false_r.
  - cbn [handler socket_emits upstream_envelope]. rewrite orb_false_r.
    unfold frontendWs_on_message.
    destruct b; simpl; auto.
    session_cases s; simpl; auto; parse_cases; simpl; auto.
  - session_cases s; reflexivity.
  - session_cases s; reflexivity.
Qed.

(** X6.  The readiness flag is never cleared, and it is set by exactly one
    thing: a text frame from the agent that parses to an envelope of type
    [conversation_initiation_metadata] and arrives while the frontend
    socket is open.  A metadata envelope that arrives when the frontend
    socket is not open is dropped without making the session ready. *)
Theorem readiness_is_set_by_metadata_only (evs : list event) (s : session) :
  isElevenLabsReady (fst (run s evs)) = true <->
  isElevenLabsReady s = true
  \/ exists pre data post,
       evs = pre ++ ElMessage data false :: post
       /\ metadata (ElMessage data false) = true
       /\ frontendState (fst (run s pre)) = OPEN.
Proof.
  revert s. induction evs as [|e evs IH]; intros s.
  - simpl. split; [auto|].
    intros [H|(pre & data & post & Heq & _)]; [assumption | now destruct pre].
  - rewrite run_cons. cbn [fst]. rewrite IH, dispatch_sets_ready. split.
    + intros [H|(pre & data & post & Heq & Hm & Hopen)].
      * apply orb_prop in H as [H|H]; [now left|].
        apply andb_prop in H as [Hm Hopen]. right.
        destruct e; try discriminate. destruct isBinary; [discriminate|].
        exists [], data, evs. repeat split; auto.
        simpl. now destruct (frontendState s).
      * right. exists (e :: pre), data, post. rewrite run_cons. cbn [fst].
        repeat split; auto. now rewrite Heq.
    + intros [H|(pre & data & post & Heq & Hm & Hopen)].
      * left. now rewrite H.
      * destruct pre as [|e' pre].
        -- simpl in Heq, Hopen. injection Heq as -> ->.
           left. rewrite Hm, Hopen. apply orb_true_r.
        -- simpl in Heq. injection Heq as -> ->.
           rewrite run_cons in Hopen. cbn [fst] in Hopen.
           right. exists pre, data, post. auto.
Qed.

(** *** Relaying in order *)

(** X7.  While the frontend socket is open, a run of text frames from the
    agent whose envelopes are neither pings nor metadata, and whose [type]
    the handler can read and log, is relayed to the frontend one send per
    frame, in arrival order, each send carrying the parsed envelope of its
    frame; the session state does not change.  An envelope without a
    [type] field, or whose [type] is not a string but converts to one, is
    relayed like any unknown type; one whose [type] does not convert is not
    relayed ([unprintable_type_is_not_relayed] below). *)
Theorem agent_frames_are_relayed_in_order
    (s : session) (frames : list buffer) (envelopes : list json) :
  frontendState s = OPEN ->
  Forall2 (fun data j => JSON_parse data = Some j /\ plain_for_frontend j = true)
          frames envelopes ->
  run s (map from_agent frames)
  = (s, map (fun j => Send frontendWs (Stringify j)) envelopes).
Proof.
  intros Hopen Hall. induction Hall as [|data j frames envelopes [Hparse Hplain] _ IH].
  - reflexivity.
  - assert (Hstep : dispatch (from_agent data) s
                    = (s, [Send frontendWs (Stringify j)])).
    { unfold Proxy.dispatch, from_agent. cbn [handler socket_emits].
      unfold elevenLabsWs_on_message. rewrite Hopen, Hparse. simpl.
      unfold plain_for_frontend, type_prints, has_type in Hplain.
      destruct (prop_type j) as [ty|]; [|discriminate].
      destruct (template_literal ty); [|discriminate].
      apply andb_prop in Hplain as [Hplain H2].
      apply andb_prop in Hplain as [_ H1].
      apply negb_true_iff in H1, H2. now rewrite H1, H2. }
    cbn [map]. rewrite run_cons, Hstep. cbn [fst snd]. now rewrite IH.
Qed.

(** X8.  In a ready session whose agent socket is open, a run of text
    frames from the frontend, none of them [end_conversation] and each with
    a [type] the handler can read and log, is relayed to the agent one send
    per frame, in arrival order; the session state does not change. *)
Theorem frontend_frames_are_relayed_in_order
    (s : session) (frames : list buffer) (envelopes : list json) :
  isElevenLabsReady s = true ->
  elevenLabsState s = OPEN ->
  Forall2 (fun data j => JSON_parse data = Some j /\ plain_for_agent j = true)
          frames envelopes ->
  run s (map from_frontend frames)
  = (s, map (fun j => Send elevenLabsWs (Stringify j)) envelopes).
Proof.
  intros Hready Hopen Hall.
  induction Hall as [|data j frames envelopes [Hparse Hplain] _ IH].
  - reflexivity.
  - assert (Hstep : dispatch (from_frontend data) s
                    = (s, [Send elevenLabsWs (Stringify j)])).
    { unfold Proxy.dispatch, from_frontend. cbn [handler socket_emits].
      unfold frontendWs_on_message. rewrite Hready, Hopen, Hparse. simpl.
      unfold plain_for_agent, type_prints, has_type in Hplain.
      destruct (prop_type j) as [ty|]; [|discriminate].
      destruct (template_literal ty); [|discriminate].
      apply andb_prop in Hplain as [_ Hplain].
      apply negb_true_iff in Hplain. now rewrite Hplain. }
    cbn [map]. rewrite run_cons, Hstep. cbn [fst snd]. now rewrite IH.
Qed.

(** An envelope whose [type] does not convert to a string stops the [try]
    block at its first log line.  From the agent it is answered like a
    frame that does not parse; from the frontend it is dropped. *)
Lemma unprintable_type_is_not_relayed
    (s : session) (data : buffer) (j : json) (ty : option json) :
  JSON_parse data = Some j ->
  prop_type j = Normal ty ->
  template_literal ty = Throw ->
  elevenLabsWs_on_message JSON_parse data false s
  = (s, if readyState_eqb (frontendState s) OPEN
        then [Send frontendWs (Stringify processing_error)] else [])
  /\ frontendWs_on_message JSON_parse data false s = (s, []).
Proof.
  intros Hparse Hty Hlog.
  unfold elevenLabsWs_on_message, frontendWs_on_message, elevenLabsWs_parse_failed.
  rewrite Hparse, Hty, Hlog.
  destruct (readyState_eqb (frontendState s) OPEN),
           (isElevenLabsReady s),
           (readyState_eqb (elevenLabsState s) OPEN); simpl; auto.
Qed.

(** *** Frames that do not parse *)

(** X9.  A text frame that is not JSON, or that is the JSON value [null]
    (whose [type] cannot be read), never stops a handler.  From the agent,
    with the frontend socket open, it is answered by exactly one error
    envelope to the frontend and is not forwarded; from the frontend, in
    whatever state, it is dropped without any call.  The session state is
    unchanged in both cases. *)
Theorem malformed_frames_are_contained (s : session) (data : buffer) :
  JSON_parse data = None \/ JSON_parse data = Some JNull ->
  elevenLabsWs_on_message JSON_parse data false s
  = (s, if readyState_eqb (frontendState s) OPEN
        then [Send frontendWs (Stringify processing_error)] else [])
  /\ frontendWs_on_message JSON_parse data false s = (s, []).
Proof.
  intros Hbad.
  unfold elevenLabsWs_on_message, frontendWs_on_message, elevenLabsWs_parse_failed.
  destruct Hbad as [-> | ->]; simpl;
    destruct (readyState_eqb (frontendState s) OPEN),
             (isElevenLabsReady s),
             (readyState_eqb (elevenLabsState s) OPEN); simpl; auto.
Qed.

(** *** The failure cascade *)

(** X10.  An [error] of the agent socket followed by its [close], with the
    frontend socket open: the frontend is sent the error envelope that
    carries the error message, then [conversationEnded], and is then
    closed, in this order; afterwards the frontend socket is closing and
    the agent is marked closed. *)
Theorem agent_failure_cascade
    (s : session) (err_message : string) (code : Z) (reason : string) :
  frontendState s = OPEN ->
  run s [ElError err_message; ElClose code reason]
  = (mkSession CLOSING CLOSED true (isElevenLabsReady s),
     [Send frontendWs (Stringify (connection_failed err_message));
      Send frontendWs (Stringify conversationEnded);
      Close frontendWs None None]).
Proof.
  intros Hopen. destruct s as [fe el closed ready]. simpl in Hopen. subst fe.
  destruct el; reflexivity.
Qed.

End WithParser.

End ProxyInvariants.

(* ================================================================== *)
(** * Part VII: further properties of the audio pipeline *)
(* ================================================================== *)

Module CaptureProperties.

Import Capture CaptureFrame CaptureFacts.

Local Open Scope Q_scope.

(** *** Truncation and the PCM conversion are monotone *)

Lemma Qnum_nonneg (x : Q) : (0 <=? Qnum x)%Z = true <-> 0 <= x.
Proof.
  destruct x as [n d]. unfold Qle. cbn [Qnum Qden]. rewrite Z.leb_le. lia.
Qed.

Lemma Qtruncate_monotone (x y : Q) : x <= y -> (Qtruncate x <= Qtruncate y)%Z.
Proof.
  intros Hxy. rewrite !Qtruncate_floor_ceiling.
  destruct (0 <=? Qnum x)%Z eqn:Hx, (0 <=? Qnum y)%Z eqn:Hy.
  - now apply Qfloor_resp_le.
  - apply Qnum_nonneg in Hx. apply not_true_iff_false in Hy.
    rewrite Qnum_nonneg in Hy. exfalso. apply Hy. lra.
  - apply not_true_iff_false in Hx. rewrite Qnum_nonneg in Hx.
    apply Qnum_nonneg in Hy.
    apply Z.le_trans with 0%Z.
    + rewrite <- (Qceiling_Z 0). apply Qceiling_resp_le.
      change (inject_Z 0) with 0. lra.
    + rewrite <- (Qfloor_Z 0). now apply Qfloor_resp_le.
  - now apply Qceiling_resp_le.
Qed.

(** X11.  The PCM conversion is monotone on finite samples: a larger sample
    never gives a smaller 16-bit value, across the change of scale at zero
    and the clamping at both ends. *)
Theorem pcm16_is_monotone (x y : Q) :
  x <= y -> (pcm16 (Finite x) <= pcm16 (Finite y))%Z.
Proof.
  intros Hxy. rewrite !pcm16_matches_spec. unfold spec_pcm16.
  apply Qtruncate_monotone.
  destruct (Qltb x (-1)) eqn:Hx1; [apply Qltb_lt in Hx1 | apply Qltb_ge in Hx1];
    destruct (Qltb y (-1)) eqn:Hy1; [apply Qltb_lt in Hy1 | apply Qltb_ge in Hy1 |
                                     apply Qltb_lt in Hy1 | apply Qltb_ge in Hy1];
    try (exfalso; lra);
    repeat match goal with
      | |- context [Qltb ?a ?b] =>
          let H := fresh "H" in
          destruct (Qltb a b) eqn:H; [apply Qltb_lt in H | apply Qltb_ge in H]
      end;
    try (exfalso; lra); lra.
Qed.

(** *** Decoding and re-encoding a sample *)

Lemma Qfloor_unique (x : Q) (z : Z) :
  inject_Z z <= x -> x < inject_Z (z + 1) -> Qfloor x = z.
Proof.
  intros Hlo Hhi.
  pose proof (Qfloor_le x) as Hf1. pose proof (Qlt_floor x) as Hf2.
  apply Z.le_antisymm; apply Z.lt_succ_r; rewrite Zlt_Qlt; unfold Z.succ.
  - apply Qle_lt_trans with x; assumption.
  - apply Qle_lt_trans with x; assumption.
Qed.

Lemma Qtruncate_nonneg (x : Q) : 0 <= x -> Qtruncate x = Qfloor x.
Proof.
  intros H. rewrite Qtruncate_floor_ceiling.
  now rewrite (proj2 (Qnum_nonneg x) H).
Qed.

Lemma channel_sample_finite (s : Z) :
  channel_sample s = Finite (inject_Z s / inject_Z 32768).
Proof. reflexivity. Qed.

(** X12.  A 16-bit sample decoded for playback, [s / 32768], lies in
    [-1, 1); converting the decoded value back with the capture side's PCM
    conversion returns [s] for [s <= 0] and [s - 1] for [s > 0]: the two
    scales, 32768 for decoding and 32767 for encoding non-negative values,
    make every positive sample one step smaller. *)
Theorem decoded_sample_reencodes_asymmetrically (s : Z) :
  (-32768 <= s <= 32767)%Z ->
  (exists q, channel_sample s = Finite q /\ -1 <= q /\ q < 1)
  /\ pcm16 (channel_sample s) = (if (0 <? s)%Z then s - 1 else s)%Z.
Proof.
  intros Hs. rewrite channel_sample_finite.
  set (q := inject_Z s / inject_Z 32768).
  assert (Hq : q * 32768 == inject_Z s).
  { unfold q. change (inject_Z 32768) with 32768. field. }
  assert (Hlo : inject_Z (-32768) <= inject_Z s) by (rewrite <- Zle_Qle; lia).
  assert (Hhi : inject_Z s <= inject_Z 32767) by (rewrite <- Zle_Qle; lia).
  change (inject_Z (-32768)) with (-32768) in Hlo.
  change (inject_Z 32767) with 32767 in Hhi.
  split.
  - exists q. repeat split; lra.
  - rewrite pcm16_matches_spec. unfold spec_pcm16.
    assert (Qltb q (-1) = false) as -> by (apply Qltb_ge; lra).
    assert (Qltb 1 q = false) as -> by (apply Qltb_ge; lra).
    destruct (Z.ltb_spec 0 s) as [Hpos|Hneg].
    + assert (H0 : inject_Z 0 < inject_Z s) by (rewrite <- Zlt_Qlt; lia).
      change (inject_Z 0) with 0 in H0.
      assert (Qltb q 0 = false) as -> by (apply Qltb_ge; lra).
      rewrite Qtruncate_nonneg by nra.
      apply Qfloor_unique.
      * unfold Z.sub. rewrite inject_Z_plus. change (inject_Z (- (1))) with (- (1)). lra.
      * replace (s - 1 + 1)%Z with s by lia. lra.
    + assert (H0 : inject_Z s <= inject_Z 0) by (rewrite <- Zle_Qle; lia).
      change (inject_Z 0) with 0 in H0.
      destruct (Qltb q 0) eqn:Hq0.
      * rewrite (Qtruncate_compat _ _ Hq). apply Qtruncate_Z.
      * apply Qltb_ge in Hq0.
        assert (Hz : q * 32767 == inject_Z s) by lra.
        rewrite (Qtruncate_compat _ _ Hz). apply Qtruncate_Z.
Qed.

(** *** Resampling finite samples *)


Section PositiveRates.

Variables src dst : Q.
Hypothesis src_positive : 0 < src.
Hypothesis dst_positive : 0 < dst.





End PositiveRates.

(** *** Decimation *)




End CaptureProperties.

Module CaptureIeeeProperties.

Import Ieee754 CaptureIeee Ieee754Facts CaptureIeeeFacts.

Lemma ToInt16_is_int16 (a : number) : (-32768 <= ToInt16 a <= 32767)%Z.
Proof.
  destruct a as [ | s | s x]; simpl; try lia.
  pose proof (Z.mod_pos_bound (truncate s x + 32768) 65536 eq_refl). lia.
Qed.

Lemma ELEVENLABS_SAMPLE_RATE_is_a_number :
  is_positive_binary64 ELEVENLABS_SAMPLE_RATE = true.
Proof. vm_compute. reflexivity. Qed.

(** X15.  The capture callback sends nothing unless the readiness flag is
    set and the socket exists and is open.  Otherwise, at a positive
    device rate, it sends one chunk for the frame, the PCM conversions in
    order of the frame itself at 16000 Hz and of the resampled frame at
    any other rate, each within [-32768, 32767]; the one frame it skips is
    a frame whose resampled length is more than a typed array can hold,
    for which [resampleAudio] throws. *)
Theorem onaudioprocess_sends_one_chunk_when_ready
    (max_length : Z) (isElevenLabsReady : bool) (ws : option readyState)
    (inputSampleRate : number) (inputData : list number) :
  (max_length <= 2 ^ 48)%Z ->
  (Z.of_nat (List.length inputData) <= max_length)%Z ->
  is_positive_binary64 inputSampleRate = true ->
  let ready :=
    match ws with
    | Some OPEN => isElevenLabsReady
    | _ => false
    end in
  let sent := onaudioprocess max_length isElevenLabsReady ws inputSampleRate inputData in
  sent =
    (if ready
     then match spec_resample max_length inputData inputSampleRate ELEVENLABS_SAMPLE_RATE with
          | Normal processedData => Some (map pcm16 processedData)
          | Throw => None
          end
     else None)
  /\ (sent = None <->
      ready = false
      \/ (strict_equal inputSampleRate ELEVENLABS_SAMPLE_RATE = false
          /\ less_than (of_Z max_length)
               (spec_output_length (List.length inputData) inputSampleRate
                                   ELEVENLABS_SAMPLE_RATE) = true))
  /\ (forall pcmData, sent = Some pcmData ->
        Forall (fun v => (-32768 <= v <= 32767)%Z) pcmData).
Proof.
  intros Hmax Hlen Hrate ready sent.
  assert (Hsent : sent =
    (if ready
     then match spec_resample max_length inputData inputSampleRate ELEVENLABS_SAMPLE_RATE with
          | Normal processedData => Some (map pcm16 processedData)
          | Throw => None
          end
     else None)).
  { unfold sent, ready, onaudioprocess.
    destruct isElevenLabsReady; [|now destruct ws as [[]|]].
    destruct ws as [[]|]; try reflexivity. cbn [negb orb readyState_eqb].
    destruct (strict_equal inputSampleRate ELEVENLABS_SAMPLE_RATE) eqn:Heq; cbn [negb].
    - unfold spec_resample. now rewrite Heq.
    - destruct (positive_binary64 _ Hrate) as (s & Hs_eq & Hs & _).
      destruct (positive_binary64 _ ELEVENLABS_SAMPLE_RATE_is_a_number)
        as (d & Hd_eq & Hd & Hrep & _).
      rewrite Hs_eq, Hd_eq.
      now rewrite (resampleAudio_at_positive_magnitudes max_length inputData s d). }
  split; [exact Hsent|]. split.
  - rewrite Hsent. unfold spec_resample.
    destruct ready; [|split; auto].
    destruct (strict_equal inputSampleRate ELEVENLABS_SAMPLE_RATE).
    + split; [discriminate|]. intros [H|[H _]]; discriminate.
    + destruct (less_than _ _).
      * split; auto.
      * split; [discriminate|]. intros [H|[_ H]]; discriminate.
  - intros pcmData Hsome. rewrite Hsent in Hsome.
    destruct ready; [|discriminate].
    destruct (spec_resample _ _ _ _) as [processedData|]; [|discriminate].
    injection Hsome as <-.
    apply Forall_forall. intros v Hv. apply in_map_iff in Hv as (x & <- & _).
    apply ToInt16_is_int16.
Qed.

End CaptureIeeeProperties.

Module PlaybackProgress.

Import Playback PlaybackFacts.

Local Open Scope nat_scope.

(** What is still to be done: the buffers queued and the render pending. *)
Lemma while_loop_consumes (queue : list ArrayBuffer) :
  forall p : player,
    List.length (audioQueue (while_loop queue p))
    + List.length (rendering (while_loop queue p))
    <= List.length queue + List.length (rendering p).
Proof.
  induction queue as [|raw rest IH]; intros p; simpl.
  - lia.
  - destruct (0 <? byteLength raw); simpl.
    + rewrite length_app. simpl. lia.
    + specialize (IH (mkPlayer rest (isAudioPlaying p) (rendering p)
                               (shifted p ++ [raw]) (played p))).
      simpl in IH. lia.
Qed.

(** A completion signal keeps the player consistent and, unless the player
    is idle, leaves strictly less to be done. *)
Lemma settle_makes_progress (E : list ArrayBuffer) (p : player) :
  consistent E p ->
  consistent E (on_settled 0 p)
  /\ List.length (audioQueue (on_settled 0 p)) + List.length (rendering (on_settled 0 p))
     <= pred (List.length (audioQueue p) + List.length (rendering p)).
Proof.
  intros Hp. split.
  - pose proof (step_consistent E p (Settled 0) Hp) as H.
    simpl in H. now rewrite app_nil_r in H.
  - destruct Hp as [_ _ Hone Hflag Hidle].
    unfold on_settled.
    destruct (rendering p) as [|b [|b' more]] eqn:Hr; simpl in *; try lia.
    + rewrite (Hidle Hflag), Hr. simpl. lia.
    + pose proof (while_loop_consumes (audioQueue p)
                    (mkPlayer (audioQueue p) (isAudioPlaying p) [] (shifted p) (played p)))
        as H.
      simpl in H. lia.
Qed.

Lemma settling_drains (n : nat) :
  forall (E : list ArrayBuffer) (p : player),
    consistent E p ->
    List.length (audioQueue p) + List.length (rendering p) <= n ->
    consistent E (fold_left step (repeat (Settled 0) n) p)
    /\ audioQueue (fold_left step (repeat (Settled 0) n) p) = []
    /\ rendering (fold_left step (repeat (Settled 0) n) p) = [].
Proof.
  induction n as [|n IH]; intros E p Hp Hn.
  - simpl. split; [assumption|]. split.
    + destruct (audioQueue p) eqn:Hq; [reflexivity | simpl in Hn; lia].
    + destruct (rendering p) eqn:Hr; [reflexivity | simpl in Hn; lia].
  - simpl. destruct (settle_makes_progress E p Hp) as [Hp' Hless].
    apply IH; [assumption | lia].
Qed.

(** X16.  Playback always finishes: after any sequence of enqueues and
    completion signals, if the pending render and each render started after
    it complete in turn (one signal for the pending render and at most one
    for each buffer still queued), the worker is idle, the queue is empty,
    every buffer enqueued has been taken in order, and exactly the
    non-empty ones have been rendered, in order. *)
Theorem playback_drains (evs : list event) (n : nat) :
  List.length (audioQueue (run evs)) + List.length (rendering (run evs)) <= n ->
  isAudioPlaying (run (evs ++ repeat (Settled 0) n)) = false
  /\ audioQueue (run (evs ++ repeat (Settled 0) n)) = []
  /\ rendering (run (evs ++ repeat (Settled 0) n)) = []
  /\ shifted (run (evs ++ repeat (Settled 0) n)) = enqueued evs
  /\ played (run (evs ++ repeat (Settled 0) n)) = filter nonempty (enqueued evs).
Proof.
  intros Hn.
  pose proof (run_consistent evs [] initial consistent_initial) as Hp.
  simpl in Hp. change (fold_left step evs initial) with (run evs) in Hp.
  destruct (settling_drains n (enqueued evs) (run evs) Hp Hn) as (Hc & Hq & Hr).
  unfold run in *. rewrite fold_left_app.
  set (p := fold_left step (repeat (Settled 0) n) (fold_left step evs initial)) in *.
  destruct Hc as [Hfifo Hplayed _ Hflag _].
  rewrite Hq, app_nil_r in Hfifo. rewrite Hr in Hflag. simpl in Hflag.
  repeat split; auto. now rewrite Hplayed, Hfifo.
Qed.

End PlaybackProgress.

Module RecorderFacts.

Import Recorder.

Lemma run_step (r : recorder) (e : teardown) (evs : list teardown) :
  run r (e :: evs) =
    (fst (run (fst (handle e r)) evs),
     snd (handle e r) ++ snd (run (fst (handle e r)) evs)).
Proof.
  simpl. destruct (handle e r) as [r1 c1]. simpl.
  now destruct (run r1 evs).
Qed.


(** With [isRecording] clear, a teardown handler touches no node and keeps
    both node variables. *)
Lemma idle_teardown_touches_nothing (e : teardown) (r : recorder) :
  isRecording r = false ->
  snd (handle e r) = []
  /\ isRecording (fst (handle e r)) = false
  /\ scriptProcessor (fst (handle e r)) = scriptProcessor r
  /\ mediaStreamSource (fst (handle e r)) = mediaStreamSource r.
Proof.
  destruct e, r as [rec ready sp ms]; simpl; intros ->; auto.
Qed.

Lemma idle_run_touches_nothing (evs : list teardown) (r : recorder) :
  isRecording r = false ->
  snd (run r evs) = []
  /\ isRecording (fst (run r evs)) = false
  /\ scriptProcessor (fst (run r evs)) = scriptProcessor r
  /\ mediaStreamSource (fst (run r evs)) = mediaStreamSource r.
Proof.
  revert r. induction evs as [|e evs IH]; intros r Hidle; [auto|].
  destruct (idle_teardown_touches_nothing e r Hidle) as (Hc & Hi & Hsp & Hms).
  destruct (IH _ Hi) as (IHc & IHi & IHsp & IHms).
  rewrite run_step. cbn [fst snd]. rewrite Hc, IHc, IHsp, IHms. auto.
Qed.


(** X18.  When the socket's own [close] or [error] handler runs first, the
    capture nodes are never detached: the handler clears [isRecording]
    before [stopLocalRecording] tests it, so that call and every later
    teardown return at the guard; no call is made on either node and both
    node variables keep what they held. *)
Theorem socket_teardown_never_detaches
    (r : recorder) (e : teardown) (evs : list teardown) :
  socket_event e = true ->
  snd (run r (e :: evs)) = []
  /\ isRecording (fst (run r (e :: evs))) = false
  /\ scriptProcessor (fst (run r (e :: evs))) = scriptProcessor r
  /\ mediaStreamSource (fst (run r (e :: evs))) = mediaStreamSource r.
Proof.
  intros He.
  assert (Hfirst : snd (handle e r) = []
                   /\ isRecording (fst (handle e r)) = false
                   /\ scriptProcessor (fst (handle e r)) = scriptProcessor r
                   /\ mediaStreamSource (fst (handle e r)) = mediaStreamSource r).
  { destruct e; try discriminate; destruct r as [rec ready sp ms]; simpl; auto. }
  destruct Hfirst as (Hc & Hi & Hsp & Hms).
  destruct (idle_run_touches_nothing evs _ Hi) as (IHc & IHi & IHsp & IHms).
  rewrite run_step. cbn [fst snd]. rewrite Hc, IHc, IHsp, IHms. auto.
Qed.

End RecorderFacts.

(* ================================================================== *)
(** * Part VIII: the further properties on concrete inputs *)
(* ================================================================== *)

Module MoreExamples.

Import Proxy ProxyCalls Samples ProxyInvariants.

Lemma shut_agent_socket_is_left_alone_witness :
  filter (on_socket elevenLabsWs)
         (snd (run sample_parse (mkSession OPEN CLOSING false true)
                   [FeMessage (envelope_text "user_audio_chunk") false;
                    ElMessage (envelope_text "ping") false;
                    FeClose])) = [].
Proof.
  apply (shut_agent_socket_is_left_alone sample_parse
           (mkSession OPEN CLOSING false true)
           [FeMessage (envelope_text "user_audio_chunk") false;
            ElMessage (envelope_text "ping") false;
            FeClose]).
  reflexivity.
Defined.

Lemma shut_frontend_socket_is_left_alone_witness :
  filter (on_socket frontendWs)
         (snd (run sample_parse (mkSession CLOSED OPEN false true)
                   [ElMessage (envelope_text "agent_response") false;
                    ElError "reset";
                    ElClose 1006%Z ""])) = [].
Proof.
  apply (shut_frontend_socket_is_left_alone sample_parse
           (mkSession CLOSED OPEN false true)
           [ElMessage (envelope_text "agent_response") false;
            ElError "reset";
            ElClose 1006%Z ""]).
  reflexivity.
Defined.

Lemma writes_go_to_open_sockets_only_witness :
  state_of elevenLabsWs
    (socket_emits (FeMessage (envelope_text "user_audio_chunk") false)
       (fst (run sample_parse handleWebSocketConnection
               [ElOpen;
                ElMessage (envelope_text "conversation_initiation_metadata") false])))
  = OPEN.
Proof.
  apply (writes_go_to_open_sockets_only sample_parse
           [ElOpen; ElMessage (envelope_text "conversation_initiation_metadata") false]
           (FeMessage (envelope_text "user_audio_chunk") false)
           (Send elevenLabsWs (Stringify (envelope "user_audio_chunk")))).
  - simpl. left. reflexivity.
  - reflexivity.
Defined.

Lemma agent_end_is_remembered_witness :
  isElevenLabsClosed
    (fst (run sample_parse handleWebSocketConnection [ElError "refused"])) = true
  /\ snd (dispatch sample_parse FeClose
            (fst (run sample_parse handleWebSocketConnection [ElError "refused"]))) = []
  /\ snd (dispatch sample_parse (FeError "reset")
            (fst (run sample_parse handleWebSocketConnection [ElError "refused"]))) = [].
Proof.
  apply (agent_end_is_remembered sample_parse handleWebSocketConnection
           [ElError "refused"] "reset").
  reflexivity.
Defined.

Lemma readiness_is_set_by_metadata_only_witness :
  isElevenLabsReady
    (fst (run sample_parse handleWebSocketConnection
            [ElOpen;
             ElMessage (envelope_text "conversation_initiation_metadata") false;
             ElClose 1000%Z ""])) = true.
Proof.
  apply (readiness_is_set_by_metadata_only sample_parse).
  right.
  exists [ElOpen], (envelope_text "conversation_initiation_metadata"),
         [ElClose 1000%Z ""%string].
  repeat split; reflexivity.
Defined.

Lemma agent_frames_are_relayed_in_order_witness :
  run sample_parse ready_session
      (map from_agent [envelope_text "agent_response"; envelope_text "user_audio_chunk"])
  = (ready_session,
     [Send frontendWs (Stringify (envelope "agent_response"));
      Send frontendWs (Stringify (envelope "user_audio_chunk"))]).
Proof.
  apply (agent_frames_are_relayed_in_order sample_parse ready_session
           [envelope_text "agent_response"; envelope_text "user_audio_chunk"]
           [envelope "agent_response"; envelope "user_audio_chunk"]).
  - reflexivity.
  - repeat constructor.
Defined.

Lemma frontend_frames_are_relayed_in_order_witness :
  run sample_parse ready_session
      (map from_frontend [envelope_text "user_audio_chunk"; envelope_text "ping"])
  = (ready_session,
     [Send elevenLabsWs (Stringify (envelope "user_audio_chunk"));
      Send elevenLabsWs (Stringify (envelope "ping"))]).
Proof.
  apply (frontend_frames_are_relayed_in_order sample_parse ready_session
           [envelope_text "user_audio_chunk"; envelope_text "ping"]
           [envelope "user_audio_chunk"; envelope "ping"]).
  - reflexivity.
  - reflexivity.
  - repeat constructor.
Defined.

(** The frame [{"type":{"toString":0}}] in both directions: the log line
    throws, the agent's frame is answered with the error envelope and the
    frontend's frame is dropped. *)
Example unprintable_type_frame :
  parse_with_unprintable unprintable_text = Some unprintable
  /\ plain_for_frontend unprintable = false
  /\ elevenLabsWs_on_message parse_with_unprintable unprintable_text false ready_session
     = (ready_session, [Send frontendWs (Stringify processing_error)])
  /\ frontendWs_on_message parse_with_unprintable unprintable_text false ready_session
     = (ready_session, []).
Proof. repeat split; reflexivity. Qed.

Lemma malformed_frames_are_contained_witness :
  elevenLabsWs_on_message sample_parse pcm_bytes false ready_session
  = (ready_session, [Send frontendWs (Stringify processing_error)])
  /\ frontendWs_on_message sample_parse pcm_bytes false ready_session
     = (ready_session, []).
Proof.
  apply (malformed_frames_are_contained sample_parse ready_session pcm_bytes).
  left. reflexivity.
Defined.

Lemma agent_failure_cascade_witness :
  run sample_parse handleWebSocketConnection [ElError "refused"; ElClose 1006%Z ""]
  = (mkSession CLOSING CLOSED true false,
     [Send frontendWs (Stringify (connection_failed "refused"));
      Send frontendWs (Stringify conversationEnded);
      Close frontendWs None None]).
Proof.
  apply (agent_failure_cascade sample_parse handleWebSocketConnection
           "refused" 1006%Z "").
  reflexivity.
Defined.

End MoreExamples.

Module AudioExamples.

Import Capture CaptureFrame CaptureProperties Samples.

Local Open Scope Q_scope.

Lemma pcm16_is_monotone_witness :
  (pcm16 (Finite (-1 # 3)) <= pcm16 (Finite (1 # 4)))%Z.
Proof.
  apply (pcm16_is_monotone (-1 # 3) (1 # 4)).
  unfold Qle. simpl. lia.
Defined.

Lemma decoded_sample_reencodes_asymmetrically_witness :
  pcm16 (channel_sample 12345) = 12344%Z
  /\ pcm16 (channel_sample (-12345)) = (-12345)%Z.
Proof.
  split.
  - apply (proj2 (decoded_sample_reencodes_asymmetrically 12345
                    ltac:(lia))).
  - apply (proj2 (decoded_sample_reencodes_asymmetrically (-12345)
                    ltac:(lia))).
Defined.



End AudioExamples.

Module CaptureIeeeWitnesses.

Import Ieee754 CaptureIeee CaptureIeeeProperties IeeeSamples.

Lemma onaudioprocess_sends_one_chunk_when_ready_witness :
  onaudioprocess sample_max_length true (Some OPEN) (of_Z 44100) ramp
  = match spec_resample sample_max_length ramp (of_Z 44100) ELEVENLABS_SAMPLE_RATE with
    | Normal processedData => Some (map pcm16 processedData)
    | Throw => None
    end.
Proof.
  apply (onaudioprocess_sends_one_chunk_when_ready sample_max_length true (Some OPEN)
           (of_Z 44100) ramp).
  - unfold sample_max_length. lia.
  - unfold sample_max_length. simpl. lia.
  - vm_compute. reflexivity.
Defined.

(** The chunks sent for [ramp] at 44100 Hz and at 16000 Hz, and the frame
    that is skipped. *)
Example onaudioprocess_chunks :
  onaudioprocess sample_max_length true (Some OPEN) (of_Z 44100) ramp
  = Some [0; 22578]%Z
  /\ onaudioprocess sample_max_length true (Some OPEN) (of_Z 16000) ramp
     = Some [0; 8191; 16383; 24575; 32767; 0]%Z
  /\ onaudioprocess sample_max_length true (Some CONNECTING) (of_Z 44100) ramp = None
  /\ onaudioprocess sample_max_length false (Some OPEN) (of_Z 44100) ramp = None
  /\ onaudioprocess sample_max_length true None (of_Z 44100) ramp = None
  /\ onaudioprocess sample_max_length true (Some OPEN) (of_Q (pow2 (-40))) ramp = None.
Proof. repeat split; vm_compute; reflexivity. Qed.

End CaptureIeeeWitnesses.

Module TeardownExamples.

Import Playback PlaybackProgress Samples.

Lemma playback_drains_witness :
  played (run ([Audio chunk1; Audio chunk2; Audio chunk3] ++ repeat (Settled 0) 3))
  = [chunk1; chunk2; chunk3]
  /\ isAudioPlaying
       (run ([Audio chunk1; Audio chunk2; Audio chunk3] ++ repeat (Settled 0) 3))
     = false.
Proof.
  destruct (playback_drains [Audio chunk1; Audio chunk2; Audio chunk3] 3
              ltac:(simpl; lia))
    as (Hidle & _ & _ & _ & Hplayed).
  split; [exact Hplayed | exact Hidle].
Defined.


Lemma socket_teardown_never_detaches_witness :
  snd (Recorder.run (Recorder.mkRecorder true true true true)
         [Recorder.WsClose; Recorder.ConversationEnded]) = []
  /\ Recorder.scriptProcessor
       (fst (Recorder.run (Recorder.mkRecorder true true true true)
               [Recorder.WsClose; Recorder.ConversationEnded])) = true.
Proof.
  destruct (RecorderFacts.socket_teardown_never_detaches
              (Recorder.mkRecorder true true true true)
              Recorder.WsClose [Recorder.ConversationEnded] eq_refl)
    as (Hcalls & _ & Hsp & _).
  split; [exact Hcalls | exact Hsp].
Defined.

End TeardownExamples.
